(** * go-utils: the partitioned Kafka consumer ([kafkalib], [kafkareader])

    A shallow embedding of the consumer supervisor ([CreateReader]), the
    partition catalog ([LookupPartitions]) and the per-partition worker
    ([PartitionReader.Start], [recover], [createReader]), followed by the
    properties of the specification that concern them.  The helpers of
    package [common] (arithmetic, [TickPacer], [Pacer], [SyncMap],
    [TriggerWindow], [SyncedData]) are embedded after them, with
    properties read off their code.

    Conventions.
    - Go [int] and [int64] are 64-bit two's-complement integers, carried
      as [Z]; the one addition of the code ([cfg.MinBytes + 64]) wraps the
      way Go's does.
    - [time.Duration] is an [int64] count of nanoseconds.
    - Calls into the broker client (kafka-go) are answered by an
      environment [Env]: each entry is given the number of earlier calls of
      the same kind and the arguments, so that an answer may depend on
      anything that happened before.  What the program does to the outside
      (queries, sleeps, log lines, handler calls) is recorded as a trace of
      [event]s.
    - A Go result pair [(v, err)] is a pair whose second component is an
      [option]; [None] is the nil error, and a nil pointer or nil slice is
      [None] or [[]].
    - [kafka.NewReader] returns no error: it panics on a configuration
      the client rejects, and the consumer recovers no panic.  The plain
      model of the constructor ([CreateReader]) leaves the panic out;
      [CreateReader_checked] is the constructor with it, and agrees with
      the plain model on every run that returns. *)

From Stdlib Require Import ZArith List String Bool Lia Sorted.
Import ListNotations.
Local Open Scope Z_scope.

(** ** Machine integers and durations *)

Module GoInt.
Definition bits : Z := 64.
Definition modulus : Z := 2 ^ bits.
Definition min_int : Z := - 2 ^ (bits - 1).
Definition max_int : Z := 2 ^ (bits - 1) - 1.

(** Reduction of a mathematical integer to the signed 64-bit range. *)
Definition wrap (x : Z) : Z := (x - min_int) mod modulus + min_int.

Definition add (a b : Z) : Z := wrap (a + b).
End GoInt.

Module time.
Definition Duration : Type := Z.
Definition Nanosecond : Duration := 1.
Definition Microsecond : Duration := 1000 * Nanosecond.
Definition Millisecond : Duration := 1000 * Microsecond.
Definition Second : Duration := 1000 * Millisecond.
End time.

(** ** The broker client, as far as the consumer uses it *)

Module kafka.
Record Broker : Type := {
  Host : string;
  Port : Z;
  BrokerID : Z
}.

Record Partition : Type := {
  PTopic : string;
  Leader : Broker;
  Replicas : list Broker;
  Isr : list Broker;
  ID : Z
}.

Record Message : Type := {
  MTopic : string;
  MPartition : Z;
  Offset : Z;
  Key : list Byte.byte;
  Value : list Byte.byte
}.

(** The fields of [kafka.ReaderConfig] that [createReader] fills in. *)
Record ReaderConfig : Type := {
  RCBrokers : list string;
  RCTopic : string;
  RCPartition : Z;
  RCMinBytes : Z;
  RCMaxBytes : Z;
  RCReadBackoffMin : time.Duration
}.

(** A pointer to a [kafka.Reader]: the handle is identified with the
    configuration it was opened from; the trace tells connection epochs
    apart. *)
Record Reader : Type := { config : ReaderConfig }.

(** The handle [NewReader(c)] returns when it returns; [NewReader_panics]
    says for which [c] it panics instead. *)
Definition NewReader (c : ReaderConfig) : Reader := {| config := c |}.

Definition LastOffset : Z := -1.
Definition FirstOffset : Z := -2.

(** An error value produced inside the client library. *)
Inductive Error : Type := ClientError (msg : string).
End kafka.

(** ** Errors, logging, events, environment *)

(** The error values the two packages can return: their own sentinels
    ([errors.New] gives each a distinct identity) and errors handed up from
    the client library. *)
Inductive error : Type :=
| ErrNoBrokers
| ErrNoTopic
| ErrNoHandler
| ErrNonePartionFound
| KafkaErr (e : kafka.Error).

Definition errorString (e : error) : string :=
  match e with
  | ErrNoBrokers => "no brokers"
  | ErrNoTopic => "no topic"
  | ErrNoHandler => "no handler"
  | ErrNonePartionFound => "none partition found"
  | KafkaErr (kafka.ClientError msg) => msg
  end.

(** A zap logger is the list of fields attached to it by [With]. *)
Inductive Field : Type :=
| FString (key value : string)
| FInt (key : string) (value : Z).

Definition Logger : Type := list Field.

Definition With (l : Logger) (f : Field) : Logger := l ++ [f].

(** The handler callback of [Config.Handler]; a callback is known by its
    identity only, its run is the event [EvHandle]. *)
Definition HandlerFunc : Type := nat.

Inductive event : Type :=
| EvLookup (timeout : time.Duration) (network addr topic : string)
| EvLogError (log : Logger) (msg : string) (err : error)
| EvSleep (d : time.Duration)
| EvClose (r : kafka.Reader)
| EvNewReader (c : kafka.ReaderConfig)
| EvSetOffset (r : kafka.Reader) (offset : Z)
| EvHandle (h : HandlerFunc) (log : Logger) (msg : kafka.Message).

Record Env : Type := {
  (** [kafka.LookupPartitions(ctx, network, addr, topic)], [ctx] carrying
      the timeout. *)
  env_LookupPartitions :
    nat -> time.Duration -> string -> string -> string ->
    list kafka.Partition * option kafka.Error;
  (** [SetOffset(offset)] on a [kafka.Reader]. *)
  env_SetOffset : nat -> kafka.Reader -> Z -> option kafka.Error;
  (** [FetchMessage(ctx)] on a [kafka.Reader]. *)
  env_FetchMessage : nat -> kafka.Reader -> kafka.Message * option kafka.Error
}.

(** ** Package kafkalib: the partition catalog *)

Module kafkalib.

(** [lookupPartitions(addr, topic)]: one query with a 3 s deadline. *)
Definition lookupPartitions (env : Env) (calls : nat) (addr topic : string)
  : (list kafka.Partition * option kafka.Error) * list event :=
  let timeout := 3 * time.Second in
  (env_LookupPartitions env calls timeout "tcp" addr topic,
   [EvLookup timeout "tcp" addr topic]).

(** [LookupPartitions(log, brokers, topic)], the loop entered with
    [calls] queries already made. *)
Fixpoint LookupPartitions_from (env : Env) (calls : nat) (log : Logger)
    (brokers : list string) (topic : string)
  : (list kafka.Partition * option error) * list event :=
  match brokers with
  | [] => (([], Some ErrNonePartionFound), [])
  | addr :: rest =>
      let '((partitions, err), tr) := lookupPartitions env calls addr topic in
      match err with
      | None => ((partitions, None), tr)
      | Some e =>
          let '(res, tr') :=
            LookupPartitions_from env (S calls) log rest topic in
          (res, tr ++ [EvLogError log "lookupPartions failed" (KafkaErr e)] ++ tr')
      end
  end.

Definition LookupPartitions (env : Env) (log : Logger)
    (brokers : list string) (topic : string)
  : (list kafka.Partition * option error) * list event :=
  LookupPartitions_from env 0 log brokers topic.

End kafkalib.

(** ** Package kafkareader: configuration *)

Definition MINBYTES : Z := 512.
Definition MAXBYTES : Z := 1024 * 1024 * 4.
Definition READBACKOFFMIN : time.Duration := time.Millisecond * 100.

Record Config : Type := {
  Name : string;
  Brokers : list string;
  Topic : string;
  MinBytes : Z;
  MaxBytes : Z;
  ReadBackoffMin : time.Duration;
  Handler : option HandlerFunc
}.

Definition set_MinBytes (v : Z) (cfg : Config) : Config :=
  {| Name := Name cfg; Brokers := Brokers cfg; Topic := Topic cfg;
     MinBytes := v; MaxBytes := MaxBytes cfg;
     ReadBackoffMin := ReadBackoffMin cfg; Handler := Handler cfg |}.

Definition set_MaxBytes (v : Z) (cfg : Config) : Config :=
  {| Name := Name cfg; Brokers := Brokers cfg; Topic := Topic cfg;
     MinBytes := MinBytes cfg; MaxBytes := v;
     ReadBackoffMin := ReadBackoffMin cfg; Handler := Handler cfg |}.

Definition set_ReadBackoffMin (v : time.Duration) (cfg : Config) : Config :=
  {| Name := Name cfg; Brokers := Brokers cfg; Topic := Topic cfg;
     MinBytes := MinBytes cfg; MaxBytes := MaxBytes cfg;
     ReadBackoffMin := v; Handler := Handler cfg |}.

(** The four assignments of [CreateReader] to the caller's [Config], one
    definition per [if] statement, in program order. *)
Definition defaultMinBytes (cfg : Config) : Config :=
  if MinBytes cfg <=? 0 then set_MinBytes MINBYTES cfg else cfg.

Definition defaultMaxBytes (cfg : Config) : Config :=
  if MaxBytes cfg <=? 0 then set_MaxBytes MAXBYTES cfg else cfg.

Definition raiseMaxBytes (cfg : Config) : Config :=
  if MaxBytes cfg <? MinBytes cfg
  then set_MaxBytes (GoInt.add (MinBytes cfg) 64) cfg
  else cfg.

Definition defaultReadBackoffMin (cfg : Config) : Config :=
  if ReadBackoffMin cfg <=? READBACKOFFMIN
  then set_ReadBackoffMin READBACKOFFMIN cfg
  else cfg.

Definition applyDefaults (cfg : Config) : Config :=
  defaultReadBackoffMin (raiseMaxBytes (defaultMaxBytes (defaultMinBytes cfg))).

(** ** Package kafkareader: supervisor and workers *)

(** The fields of [Reader] that its workers read through [pr.parent]; they
    are written once, in [CreateReader].  The pointer cycle
    [Reader.readers -> PartitionReader.parent] is cut here. *)
Record ReaderShared : Type := {
  handleEvent : HandlerFunc;
  rlog : Logger;
  topic : string;
  brokers : list string;
  minBytes : Z;
  maxBytes : Z;
  partitions : list kafka.Partition;
  readBackoffMin : time.Duration
}.

Record PartitionReader : Type := {
  parent : ReaderShared;
  log : Logger;
  reader : option kafka.Reader;
  partition : kafka.Partition
}.

Record Reader : Type := {
  shared : ReaderShared;
  readers : list PartitionReader;
  status : bool;
  closing : bool
}.

Definition set_reader (r : option kafka.Reader) (pr : PartitionReader)
  : PartitionReader :=
  {| parent := parent pr; log := log pr; reader := r;
     partition := partition pr |}.

(** The [kafka.ReaderConfig] literal of [createReader]. *)
Definition readerConfig (pr : PartitionReader) : kafka.ReaderConfig :=
  {| kafka.RCBrokers := brokers (parent pr);
     kafka.RCTopic := topic (parent pr);
     kafka.RCPartition := kafka.ID (partition pr);
     kafka.RCMinBytes := minBytes (parent pr);
     kafka.RCMaxBytes := maxBytes (parent pr);
     kafka.RCReadBackoffMin := readBackoffMin (parent pr) |}.

(** [pr.createReader()]: opens a connection, stores it in [pr.reader] and
    seeks it to the newest offset; the seek's error is the result. *)
Definition createReader (env : Env) (seeks : nat) (pr : PartitionReader)
  : (PartitionReader * option kafka.Error) * list event :=
  let c := readerConfig pr in
  let r := kafka.NewReader c in
  let err := env_SetOffset env seeks r kafka.LastOffset in
  ((set_reader (Some r) pr, err),
   [EvNewReader c; EvSetOffset r kafka.LastOffset]).

Definition NewPartitionReader (env : Env) (seeks : nat) (rd : ReaderShared)
    (p : kafka.Partition)
  : (PartitionReader * option kafka.Error) * list event :=
  let pr := {| parent := rd; partition := p; reader := None;
               log := With (rlog rd) (FInt "partition" (kafka.ID p)) |} in
  createReader env seeks pr.

(** The loop [for i := 0; i < len(partitions); i++] of [CreateReader],
    entered with [acc] workers built; stops at the first failing worker. *)
Fixpoint newPartitionReaders (env : Env) (rd : ReaderShared)
    (todo : list kafka.Partition) (acc : list PartitionReader)
  : (option (list PartitionReader) * option error) * list event :=
  match todo with
  | [] => ((Some acc, None), [])
  | p :: rest =>
      let '((pr, err), tr) := NewPartitionReader env (List.length acc) rd p in
      match err with
      | Some e =>
          ((None, Some (KafkaErr e)),
           tr ++ [EvLogError (rlog rd) "createReader failed" (KafkaErr e)])
      | None =>
          let '(res, tr') :=
            newPartitionReaders env rd rest (acc ++ [pr]) in
          (res, tr ++ tr')
      end
  end.

(** The package-level logger. *)
Definition pkgLog : Logger := [FString "pkg" "kfreader"].

(** The logger of the new reader: [log.With("name", cfg.Name)] when a
    name is set. *)
Definition loggerFor (cfg : Config) : Logger :=
  if (Name cfg =? EmptyString)%string then pkgLog
  else With pkgLog (FString "name" (Name cfg)).

(** The [&Reader{...}] literal, without its (still empty) [readers]. *)
Definition mkShared (h : HandlerFunc) (cfg : Config)
    (parts : list kafka.Partition) : ReaderShared :=
  {| handleEvent := h; rlog := loggerFor cfg; topic := Topic cfg;
     brokers := Brokers cfg; minBytes := MinBytes cfg;
     maxBytes := MaxBytes cfg; partitions := parts;
     readBackoffMin := ReadBackoffMin cfg |}.

(** The second half of [CreateReader], from the logger on: [cfg] is the
    configuration as the defaults left it, [h] its non-nil handler. *)
Definition construct (env : Env) (h : HandlerFunc) (cfg : Config)
  : Config * (option Reader * option error) * list event :=
  let log := loggerFor cfg in
  let '((parts, err), tr) :=
    kafkalib.LookupPartitions env log (Brokers cfg) (Topic cfg) in
  match err with
  | Some e =>
      (cfg, (None, Some e), tr ++ [EvLogError log "failed look partions" e])
  | None =>
      let rd := mkShared h cfg parts in
      let '((rs, err'), tr') := newPartitionReaders env rd parts [] in
      match rs, err' with
      | Some rs, None =>
          (cfg,
           (Some {| shared := rd; readers := rs;
                    status := false; closing := false |}, None),
           tr ++ tr')
      | _, _ => (cfg, (None, err'), tr ++ tr')
      end
  end.

(** [CreateReader(cfg)]: the caller's [cfg] after the call, the returned
    pair and the trace. *)
Definition CreateReader (env : Env) (cfg : Config)
  : Config * (option Reader * option error) * list event :=
  if (List.length (Brokers cfg) =? 0)%nat
  then (cfg, (None, Some ErrNoBrokers), [])
  else if (Topic cfg =? EmptyString)%string
  then (cfg, (None, Some ErrNoTopic), [])
  else match Handler cfg with
  | None => (cfg, (None, Some ErrNoHandler), [])
  | Some h =>
      let cfg := defaultMinBytes cfg in
      let cfg := defaultMaxBytes cfg in
      let cfg := raiseMaxBytes cfg in
      let cfg := defaultReadBackoffMin cfg in
      construct env h cfg
  end.

Definition cfgAfter (env : Env) (cfg : Config) : Config :=
  fst (fst (CreateReader env cfg)).

Definition returned (env : Env) (cfg : Config) : option Reader * option error :=
  snd (fst (CreateReader env cfg)).

Definition traceOf (env : Env) (cfg : Config) : list event :=
  snd (CreateReader env cfg).

(** ** The worker loop [PartitionReader.Start]

    [Start] never returns: it is run one interaction with the client at a
    time.  A worker is either about to call [FetchMessage] ([Consuming]) or
    about to call [createReader] inside the loop of [recover]
    ([Recovering]); [Panicked] is the nil dereference of a worker that was
    started without a connection. *)

Inductive phase : Type := Consuming | Recovering | Panicked.

Record Worker : Type := {
  self : PartitionReader;
  maxOffset : Z;
  at_phase : phase;
  fetches : nat;
  seeks : nat
}.

(** Entry of [Start]: [maxOffset := int64(0)]. *)
Definition Start_init (pr : PartitionReader) : Worker :=
  {| self := pr; maxOffset := 0; at_phase := Consuming;
     fetches := 0; seeks := 0 |}.

(** The head of [recover]: [if pr.reader != nil { pr.reader.Close() }]. *)
Definition recover_close (pr : PartitionReader) : list event :=
  match reader pr with
  | Some r => [EvClose r]
  | None => []
  end.

Definition step (env : Env) (w : Worker) : Worker * list event :=
  match at_phase w with
  | Consuming =>
      match reader (self w) with
      | None =>
          ({| self := self w; maxOffset := maxOffset w; at_phase := Panicked;
              fetches := fetches w; seeks := seeks w |}, [])
      | Some r =>
          let '(msg, err) := env_FetchMessage env (fetches w) r in
          match err with
          | None =>
              if kafka.Offset msg <=? maxOffset w
              then
                ({| self := self w; maxOffset := maxOffset w;
                    at_phase := Consuming;
                    fetches := S (fetches w); seeks := seeks w |}, [])
              else
                ({| self := self w; maxOffset := kafka.Offset msg;
                    at_phase := Consuming;
                    fetches := S (fetches w); seeks := seeks w |},
                 [EvHandle (handleEvent (parent (self w))) (log (self w)) msg])
          | Some e =>
              ({| self := self w; maxOffset := maxOffset w;
                  at_phase := Recovering;
                  fetches := S (fetches w); seeks := seeks w |},
               [EvSleep (time.Millisecond * 200);
                EvLogError (log (self w)) "reader broken, start to recover..."
                  (KafkaErr e)]
               ++ recover_close (self w))
          end
      end
  | Recovering =>
      let '((pr, err), tr) := createReader env (seeks w) (self w) in
      match err with
      | Some e =>
          ({| self := pr; maxOffset := maxOffset w; at_phase := Recovering;
              fetches := fetches w; seeks := S (seeks w) |},
           tr ++ [EvLogError (log pr) "recover failed" (KafkaErr e);
                  EvSleep (time.Second * 3)])
      | None =>
          ({| self := pr; maxOffset := maxOffset w; at_phase := Consuming;
              fetches := fetches w; seeks := S (seeks w) |}, tr)
      end
  | Panicked => (w, [])
  end.

(** [n] interactions of the loop, with everything it did meanwhile. *)
Fixpoint run (env : Env) (n : nat) (w : Worker) : Worker * list event :=
  match n with
  | O => (w, [])
  | S k =>
      let '(w1, tr1) := step env w in
      let '(w2, tr2) := run env k w1 in
      (w2, tr1 ++ tr2)
  end.

(** ** Reading traces *)

Definition delivered (tr : list event) : list kafka.Message :=
  flat_map (fun e => match e with EvHandle _ _ m => [m] | _ => [] end) tr.

Definition deliveredOffsets (tr : list event) : list Z :=
  map kafka.Offset (delivered tr).

Definition queried (tr : list event) : list (time.Duration * string * string * string) :=
  flat_map (fun e => match e with
                     | EvLookup t n a tp => [(t, n, a, tp)]
                     | _ => []
                     end) tr.

Definition opened (tr : list event) : list kafka.ReaderConfig :=
  flat_map (fun e => match e with EvNewReader c => [c] | _ => [] end) tr.

Definition seekTargets (tr : list event) : list Z :=
  flat_map (fun e => match e with EvSetOffset _ o => [o] | _ => [] end) tr.

Definition isConfigError (e : option error) : bool :=
  match e with
  | Some ErrNoBrokers | Some ErrNoTopic | Some ErrNoHandler => true
  | _ => false
  end.

(** ** Sample environments and configurations *)

Definition noMessage : kafka.Message :=
  {| kafka.MTopic := EmptyString; kafka.MPartition := 0; kafka.Offset := 0;
     kafka.Key := []; kafka.Value := [] |}.

Definition broker0 : kafka.Broker :=
  {| kafka.Host := "k0"; kafka.Port := 9092; kafka.BrokerID := 0 |}.

Definition partitionOf (t : string) (i : Z) : kafka.Partition :=
  {| kafka.PTopic := t; kafka.Leader := broker0; kafka.Replicas := [];
     kafka.Isr := []; kafka.ID := i |}.

(** Every broker answers with [parts], every seek succeeds. *)
Definition envHealthy (parts : list kafka.Partition) : Env :=
  {| env_LookupPartitions := fun _ _ _ _ _ => (parts, None);
     env_SetOffset := fun _ _ _ => None;
     env_FetchMessage := fun _ _ => (noMessage, None) |}.

Definition cfgSample (minb maxb : Z) (backoff : time.Duration) : Config :=
  {| Name := EmptyString; Brokers := ["k0:9092"%string]; Topic := "orders";
     MinBytes := minb; MaxBytes := maxb; ReadBackoffMin := backoff;
     Handler := Some 7%nat |}.

(** ** Vocabulary of the properties, and sample runs *)

(** A minimum within 64 of the largest [int]. *)
Definition cfgOverflow : Config := cfgSample GoInt.max_int 0 0.

(** The query [lookupPartitions] sends for one address. *)
Definition queryFor (topic addr : string)
  : time.Duration * string * string * string :=
  (3 * time.Second, "tcp"%string, addr, topic).

(** The answer of the [i]-th query, sent to [addr], is an error. *)
Definition lookupFails (env : Env) (topic : string) (i : nat) (addr : string)
  : Prop :=
  snd (env_LookupPartitions env i (3 * time.Second) "tcp" addr topic) <> None.

(** The worker literal of [NewPartitionReader], before it is connected. *)
Definition newWorker (rd : ReaderShared) (p : kafka.Partition) : PartitionReader :=
  {| parent := rd; partition := p; reader := None;
     log := With (rlog rd) (FInt "partition" (kafka.ID p)) |}.

(** The worker after [createReader]: connected anew. *)
Definition connect (pr : PartitionReader) : PartitionReader :=
  set_reader (Some (kafka.NewReader (readerConfig pr))) pr.

(** The answer to the seek of [createReader], when it is the [i]-th. *)
Definition seekAnswer (env : Env) (i : nat) (pr : PartitionReader)
  : option kafka.Error :=
  env_SetOffset env i (kafka.NewReader (readerConfig pr)) kafka.LastOffset.

(** What [createReader] does to the outside. *)
Definition connectTrace (pr : PartitionReader) : list event :=
  [EvNewReader (readerConfig pr);
   EvSetOffset (kafka.NewReader (readerConfig pr)) kafka.LastOffset].

(** The worker [NewPartitionReader] returns: connected. *)
Definition workerFor (rd : ReaderShared) (p : kafka.Partition) : PartitionReader :=
  connect (newWorker rd p).

(** The answer to the seek of the worker for [p], when it is the [i]-th
    seek of the construction. *)
Definition initialSeek (env : Env) (rd : ReaderShared) (i : nat)
    (p : kafka.Partition) : option kafka.Error :=
  seekAnswer env i (newWorker rd p).

Definition slept (tr : list event) : list time.Duration :=
  flat_map (fun e => match e with EvSleep d => [d] | _ => [] end) tr.

Definition running (w : Worker) : Prop :=
  at_phase w = Consuming \/ at_phase w = Recovering.

(** A partition that serves the given fetch answers, one per call, then
    fails every fetch; seeks are answered from [seekScript] and succeed
    once it is used up. *)
Definition envScript
    (fetchScript : list (kafka.Message * option kafka.Error))
    (seekScript : list (option kafka.Error)) : Env :=
  {| env_LookupPartitions := fun _ _ _ _ _ => ([], None);
     env_SetOffset := fun i _ _ => nth i seekScript None;
     env_FetchMessage := fun i _ =>
       nth i fetchScript (noMessage, Some (kafka.ClientError "EOF")) |}.

Definition msgAt (o : Z) : kafka.Message :=
  {| kafka.MTopic := "orders"; kafka.MPartition := 0; kafka.Offset := o;
     kafka.Key := []; kafka.Value := [] |}.

Definition fetchedAt (o : Z) : kafka.Message * option kafka.Error :=
  (msgAt o, None).

Definition fetchBroken : kafka.Message * option kafka.Error :=
  (noMessage, Some (kafka.ClientError "connection reset")).

Definition sharedSample : ReaderShared :=
  mkShared 7%nat (applyDefaults (cfgSample 0 0 0)) [partitionOf "orders" 0].

Definition workerSample : PartitionReader :=
  workerFor sharedSample (partitionOf "orders" 0).

(** No broker answers. *)
Definition envDown : Env :=
  {| env_LookupPartitions := fun _ _ _ _ _ =>
       ([], Some (kafka.ClientError "dial tcp: i/o timeout"));
     env_SetOffset := fun _ _ _ => None;
     env_FetchMessage := fun _ _ => fetchBroken |}.

(** Broker "a:9092" is down, every other broker answers. *)
Definition envFailover : Env :=
  {| env_LookupPartitions := fun _ _ _ addr _ =>
       if (addr =? "a:9092")%string
       then ([], Some (kafka.ClientError "dial tcp: i/o timeout"))
       else ([partitionOf "orders" 0; partitionOf "orders" 1], None);
     env_SetOffset := fun _ _ _ => None;
     env_FetchMessage := fun _ _ => fetchBroken |}.

(** A worker that has delivered offset 5 and now meets a broken fetch; the
    first reconnection fails, the second succeeds, then offsets 3 and 9
    arrive. *)
Definition envOutage : Env :=
  envScript [fetchedAt 5; fetchBroken; fetchedAt 3; fetchedAt 9]
    [Some (kafka.ClientError "leader not available"); None].

Definition workerAt5 : Worker :=
  {| self := workerSample; maxOffset := 5; at_phase := Consuming;
     fetches := 1; seeks := 0 |}.

(** ** Supervisor start and stop *)

(** [PartitionReader.Stop]: the body is empty. *)
Definition PartitionReader_Stop (pr : PartitionReader) : PartitionReader := pr.

(** [Reader.Start]: one [go reader.Start()] per worker, in the order of
    [p.readers], then [p.status = true].  The result is the reader after
    the call and the entry states of the goroutines launched. *)
Definition Reader_Start (p : Reader) : Reader * list Worker :=
  ({| shared := shared p; readers := readers p;
      status := true; closing := closing p |},
   map Start_init (readers p)).

(** [Reader.Close]: [p.closing = true], then [Stop] on every worker. *)
Definition Reader_Close (p : Reader) : Reader :=
  {| shared := shared p; readers := map PartitionReader_Stop (readers p);
     status := status p; closing := true |}.

(** ** More vocabulary for traces and runs *)

Definition closed (tr : list event) : list kafka.Reader :=
  flat_map (fun e => match e with EvClose r => [r] | _ => [] end) tr.

Definition logged (tr : list event) : list error :=
  flat_map (fun e => match e with EvLogError _ _ err => [err] | _ => [] end) tr.

(** The handler and logger of each handler call. *)
Definition handlerCalls (tr : list event) : list (HandlerFunc * Logger) :=
  flat_map (fun e => match e with EvHandle h l _ => [(h, l)] | _ => [] end) tr.

(** What [CreateReader] may do to the outside. *)
Definition constructionEvent (e : event) : Prop :=
  match e with
  | EvLookup _ _ _ _ | EvLogError _ _ _ | EvNewReader _ => True
  | EvSetOffset _ o => o = kafka.LastOffset
  | EvSleep _ | EvClose _ | EvHandle _ _ _ => False
  end.

(** The duplicate filter on its own: keep a message exactly when its
    offset is above [m], the largest offset kept so far. *)
Fixpoint records (m : Z) (l : list kafka.Message) : list kafka.Message :=
  match l with
  | [] => []
  | x :: rest =>
      if kafka.Offset x <=? m then records m rest
      else x :: records (kafka.Offset x) rest
  end.

(** The answer the next step of [w] gets from [FetchMessage], if that
    step fetches. *)
Definition fetchAnswer (env : Env) (w : Worker)
  : list (kafka.Message * option kafka.Error) :=
  match at_phase w, reader (self w) with
  | Consuming, Some r => [env_FetchMessage env (fetches w) r]
  | _, _ => []
  end.

(** The answers to the fetches of [n] interactions. *)
Fixpoint fetchedBy (env : Env) (n : nat) (w : Worker)
  : list (kafka.Message * option kafka.Error) :=
  match n with
  | O => []
  | S k => fetchAnswer env w ++ fetchedBy env k (fst (step env w))
  end.

(** The messages among fetch answers: those with a nil error. *)
Definition received (answers : list (kafka.Message * option kafka.Error))
  : list kafka.Message :=
  flat_map (fun a => match snd a with None => [fst a] | Some _ => [] end)
    answers.

(** 1 while the worker is inside [recover], 0 otherwise. *)
Definition recovering (w : Worker) : nat :=
  match at_phase w with
  | Recovering => 1
  | Consuming | Panicked => 0
  end.

(** How often the trace sleeps for [d]. *)
Definition sleepsOf (d : time.Duration) (tr : list event) : nat :=
  count_occ Z.eq_dec (slept tr) d.

(** ** Package common: arithmetic helpers ([math.go])

    The generic functions are taken at [T = int]. *)

Module common.

(** [Abs]: [-a] is computed in [int], and wraps. *)
Definition Abs (a : Z) : Z := if a <? 0 then GoInt.wrap (- a) else a.

Definition Max (a b : Z) : Z := if a <? b then b else a.

Definition Min (a b : Z) : Z := if a <? b then a else b.

(** [IsPowerOfTwo]: [(number > 1) && (number&(number-1)) == 0]. *)
Definition IsPowerOfTwo (number : Z) : bool :=
  (1 <? number) && (Z.land number (GoInt.wrap (number - 1)) =? 0).

End common.

(** ** Package common: [TickPacer] ([pacer.go])

    The three counters are [uint64]. *)

Module Uint64.
Definition modulus : Z := 2 ^ 64.
Definition wrap (x : Z) : Z := x mod modulus.
End Uint64.

Module TickPacer.

Record t : Type := { pace : Z; tick : Z; last : Z }.

(** [Go(f)]: the new state, and whether [go f()] was executed. *)
Definition Go (p : t) : t * bool :=
  let tick' := Uint64.wrap (tick p + 1) in
  if pace p <? Uint64.wrap (tick' - last p)
  then ({| pace := pace p; tick := tick'; last := tick' |}, true)
  else ({| pace := pace p; tick := tick'; last := last p |}, false).

(** [n] calls of [Go] in a row, with the outcome of each. *)
Fixpoint Go_times (n : nat) (p : t) : t * list bool :=
  match n with
  | O => (p, [])
  | S k =>
      let '(p1, b) := Go p in
      let '(p2, bs) := Go_times k p1 in
      (p2, b :: bs)
  end.

End TickPacer.

Definition NewTickPacer (pace : Z) : TickPacer.t :=
  {| TickPacer.pace := pace; TickPacer.tick := 0; TickPacer.last := 0 |}.

(** The ticks counted since [f] last ran, as [Go] computes them. *)
Definition sinceLast (p : TickPacer.t) : Z :=
  Uint64.wrap (TickPacer.tick p - TickPacer.last p).

(** ** Package common: [SyncMap] ([synced_data.go])

    Every method holds the map's lock for its whole body, so a call is one
    atomic step on the map.  A Go map is its lookup function; a lookup
    result [(v, ok)] is an [option]. *)

Module SyncMap.
Section WithTypes.

Context {K T : Type}.
Variable K_eq_dec : forall a b : K, {a = b} + {a <> b}.

Record t : Type := { d : K -> option T }.

Definition Get (lm : t) (k : K) : option T := d lm k.

Definition Update (lm : t) (key : K) (n : T) : t :=
  {| d := fun k => if K_eq_dec k key then Some n else d lm k |}.

(** [UpdateIf]: [update = !ok || f(old, n)]; [f] is not called for a key
    that is absent. *)
Definition UpdateIf (lm : t) (key : K) (n : T) (f : T -> T -> bool)
  : t * bool :=
  match d lm key with
  | None => (Update lm key n, true)
  | Some old => if f old n then (Update lm key n, true) else (lm, false)
  end.

(** [NewSyncMap(capacity)]: the capacity is a hint only. *)
Definition New (capacity : Z) : t := {| d := fun _ => None |}.

(** A call of one of the two writing methods. *)
Inductive op : Type :=
| OpUpdate (key : K) (n : T)
| OpUpdateIf (key : K) (n : T) (f : T -> T -> bool).

Definition apply (lm : t) (o : op) : t :=
  match o with
  | OpUpdate key n => Update lm key n
  | OpUpdateIf key n f => fst (UpdateIf lm key n f)
  end.

Definition offered (o : op) : K * T :=
  match o with
  | OpUpdate key n | OpUpdateIf key n _ => (key, n)
  end.

End WithTypes.
End SyncMap.

(** [NewSyncMapGroup(g, c)]: [None] is the panic "not power of two". *)
Definition NewSyncMapGroup {K T : Type} (g c : Z)
  : option (list (@SyncMap.t K T)) :=
  if negb (common.IsPowerOfTwo g) then None
  else Some (map (fun _ => SyncMap.New c) (seq 0 (Z.to_nat g))).

(** ** Package common: [TriggerWindow] ([math.go])

    [Trigger] holds the lock for its whole body: one call is one atomic
    step.  The clock reading [time.Now()] of a call is an argument, and
    [time.Time] with its [Sub] is left abstract. *)

Module TriggerWindow.
Section WithTypes.

Context {T Time : Type}.
Variable T_eq_dec : forall a b : T, {a = b} + {a <> b}.
Variable Sub : Time -> Time -> time.Duration.

Record t : Type := {
  records : T -> option (list Time);
  interval : time.Duration;
  limit : Z
}.

(** [tc.records[symbol]] read as a slice: nil when the key is absent. *)
Definition recordsOf (tc : t) (symbol : T) : list Time :=
  match records tc symbol with
  | Some l => l
  | None => []
  end.

Definition setRecords (tc : t) (symbol : T) (l : list Time) : t :=
  {| records := fun s => if T_eq_dec s symbol then Some l else records tc s;
     interval := interval tc; limit := limit tc |}.

Definition Trigger (tc : t) (symbol : T) (currentTime : Time) : t * bool :=
  let validTimes :=
    filter (fun x => Sub currentTime x <=? interval tc) (recordsOf tc symbol) in
  let kept := validTimes ++ [currentTime] in
  let reached := limit tc <=? Z.of_nat (List.length kept) in
  (setRecords tc symbol (if reached then [] else kept), reached).

(** One [Trigger] of [symbol] per clock reading, in order. *)
Fixpoint Trigger_all (tc : t) (symbol : T) (times : list Time)
  : t * list bool :=
  match times with
  | [] => (tc, [])
  | now :: rest =>
      let '(tc1, b) := Trigger tc symbol now in
      let '(tc2, bs) := Trigger_all tc1 symbol rest in
      (tc2, b :: bs)
  end.

(** All readings of [ts] lie within the window of every later one. *)
Definition withinWindow (interval : time.Duration) (ts : list Time) : Prop :=
  ForallOrdPairs (fun earlier later => Sub later earlier <= interval) ts.

(** All readings of [ts] lie beyond the window of every later one. *)
Definition beyondWindow (interval : time.Duration) (ts : list Time) : Prop :=
  ForallOrdPairs (fun earlier later => interval < Sub later earlier) ts.

End WithTypes.
End TriggerWindow.

Definition NewTriggerWindow {T Time : Type} (limit : Z)
    (interval : time.Duration) : @TriggerWindow.t T Time :=
  {| TriggerWindow.records := fun _ => None;
     TriggerWindow.interval := interval;
     TriggerWindow.limit := limit |}.

(** ** Package common: [SyncedData] ([synced_data.go])

    One method call at a time.  The refresh function [f] is known by its
    answers, the [i]-th call getting [f i]; a clock reading [time.Now()]
    is an argument of the call that takes it; [T] is a concrete type with
    zero value [zero], so that the type assertion of [Get] fails exactly
    when nothing was stored.  The logger, the context and the wait group
    are left out; what is logged is recorded as events. *)

Module SyncedData.
Section WithTypes.

Context {T E Time : Type}.
Variable zero : T.
Variable zeroTime : Time.
Variable f : nat -> T * option E.

Inductive error : Type :=
| ErrIntervalNotPositive (t : time.Duration)
| ErrNilRefresh
| ErrNotInitialized
| ErrTypeMismatch
| ErrSetBeforeInit
| ErrInitTwice
| ErrRefreshFailed (attempts : Z) (cause : E).

Inductive event : Type :=
| LogAttemptFailed (attempt : Z) (cause : E) (retry : time.Duration)
| Sleep (d : time.Duration)
| LogRefreshSuccess (at_ : Time)
| LogInitialRefreshFailed (err : error)
| LogScheduledRefreshFailed (err : error)
| LogTypeMismatch
| GoRefreshLoop.

Record state : Type := {
  d : option T;
  t : time.Duration;
  defaultVal : T;
  retryMax : Z;
  retryInterval : time.Duration;
  immediateRefresh : bool;
  initDone : bool;
  lastRefreshTime : Time;
  lastRefreshOk : bool;
  calls : nat
}.

(** The options; [WithLogger] only replaces the logger. *)
Inductive Option : Type :=
| WithDefaultValue (val : T)
| WithLogger (nonNil : bool)
| WithRetryPolicy (maxRetries : Z) (interval : time.Duration)
| WithImmediateRefresh (immediate : bool).

Definition applyOption (sd : state) (o : Option) : state :=
  match o with
  | WithDefaultValue val =>
      {| d := Some val; t := t sd; defaultVal := val;
         retryMax := retryMax sd; retryInterval := retryInterval sd;
         immediateRefresh := immediateRefresh sd; initDone := initDone sd;
         lastRefreshTime := lastRefreshTime sd;
         lastRefreshOk := lastRefreshOk sd; calls := calls sd |}
  | WithLogger _ => sd
  | WithRetryPolicy maxRetries interval =>
      if 0 <? maxRetries
      then {| d := d sd; t := t sd; defaultVal := defaultVal sd;
              retryMax := maxRetries; retryInterval := interval;
              immediateRefresh := immediateRefresh sd;
              initDone := initDone sd;
              lastRefreshTime := lastRefreshTime sd;
              lastRefreshOk := lastRefreshOk sd; calls := calls sd |}
      else sd
  | WithImmediateRefresh immediate =>
      {| d := d sd; t := t sd; defaultVal := defaultVal sd;
         retryMax := retryMax sd; retryInterval := retryInterval sd;
         immediateRefresh := immediate; initDone := initDone sd;
         lastRefreshTime := lastRefreshTime sd;
         lastRefreshOk := lastRefreshOk sd; calls := calls sd |}
  end.

(** [NewSyncedData(t, f, opts...)]; [hasF] tells whether [f] is non-nil. *)
Definition New (interval : time.Duration) (hasF : bool) (opts : list Option)
  : option state * option error :=
  if interval <=? 0 then (None, Some (ErrIntervalNotPositive interval))
  else if negb hasF then (None, Some ErrNilRefresh)
  else
    let sd := {| d := None; t := interval; defaultVal := zero; retryMax := 0;
                 retryInterval := 1 * time.Second; immediateRefresh := true;
                 initDone := false;
                 lastRefreshTime := zeroTime; lastRefreshOk := false;
                 calls := 0 |} in
    let sd := fold_left applyOption opts sd in
    (Some {| d := d sd; t := t sd; defaultVal := defaultVal sd;
             retryMax := retryMax sd; retryInterval := retryInterval sd;
             immediateRefresh := immediateRefresh sd; initDone := initDone sd;
             lastRefreshTime := zeroTime;
             lastRefreshOk := false; calls := calls sd |}, None).

Definition Get (c : state) : (T * option error) * list event :=
  if negb (initDone c) then ((defaultVal c, Some ErrNotInitialized), [])
  else match d c with
       | Some data => ((data, None), [])
       | None => ((defaultVal c, Some ErrTypeMismatch), [LogTypeMismatch])
       end.

Definition stored (v : T) (now : Time) (c : state) : state :=
  {| d := Some v; t := t c; defaultVal := defaultVal c;
     retryMax := retryMax c; retryInterval := retryInterval c;
     immediateRefresh := immediateRefresh c; initDone := initDone c;
     lastRefreshTime := now;
     lastRefreshOk := true; calls := calls c |}.

Definition Set_ (now : Time) (c : state) (v : T) : state * option error :=
  if negb (initDone c) then (c, Some ErrSetBeforeInit)
  else (stored v now c, None).

Definition GetStatus (c : state) : Time * bool :=
  (lastRefreshTime c, lastRefreshOk c).

Definition called (c : state) : state :=
  {| d := d c; t := t c; defaultVal := defaultVal c;
     retryMax := retryMax c; retryInterval := retryInterval c;
     immediateRefresh := immediateRefresh c; initDone := initDone c;
     lastRefreshTime := lastRefreshTime c;
     lastRefreshOk := lastRefreshOk c; calls := S (calls c) |}.

Definition failed (c : state) : state :=
  {| d := d c; t := t c; defaultVal := defaultVal c;
     retryMax := retryMax c; retryInterval := retryInterval c;
     immediateRefresh := immediateRefresh c; initDone := initDone c;
     lastRefreshTime := lastRefreshTime c;
     lastRefreshOk := false; calls := calls c |}.

(** The loop of [refreshWithRetry], entered at [attempt] with [fuel]
    iterations to go: the data to store, or the error returned. *)
Fixpoint attempts (fuel : nat) (attempt : Z) (c : state)
  : state * (T + error) * list event :=
  match fuel with
  | O => (c, inl zero, [])
  | S k =>
      let '(data, err) := f (calls c) in
      let c := called c in
      match err with
      | None => (c, inl data, [])
      | Some e =>
          if attempt =? retryMax c
          then (failed c, inr (ErrRefreshFailed (GoInt.add (retryMax c) 1) e), [])
          else
            let '(c', r, ev) := attempts k (attempt + 1) c in
            (c', r,
             LogAttemptFailed (attempt + 1) e (retryInterval c)
             :: Sleep (retryInterval c) :: ev)
      end
  end.

Definition refreshWithRetry (now : Time) (c : state)
  : state * option error * list event :=
  let '(c', r, ev) := attempts (Z.to_nat (retryMax c + 1)) 0 c in
  match r with
  | inr e => (c', Some e, ev)
  | inl data => (stored data now c', None, ev ++ [LogRefreshSuccess now])
  end.

Definition initialised (c : state) : state :=
  {| d := d c; t := t c; defaultVal := defaultVal c;
     retryMax := retryMax c; retryInterval := retryInterval c;
     immediateRefresh := immediateRefresh c; initDone := true;
     lastRefreshTime := lastRefreshTime c;
     lastRefreshOk := lastRefreshOk c; calls := calls c |}.

(** [Init()]: the state, the error, and the events, the last of which is
    the launch of [refreshLoop]. *)
Definition Init (now : Time) (c : state) : state * option error * list event :=
  if initDone c then (c, Some ErrInitTwice, [])
  else
    let c := initialised c in
    if immediateRefresh c
    then
      let '(c', err, ev) := refreshWithRetry now c in
      match err with
      | Some e => (c', None, ev ++ [LogInitialRefreshFailed e; GoRefreshLoop])
      | None => (c', None, ev ++ [GoRefreshLoop])
      end
    else (c, None, [GoRefreshLoop]).

(** One tick of [refreshLoop]. *)
Definition tick (now : Time) (c : state) : state * list event :=
  let '(c', err, ev) := refreshWithRetry now c in
  match err with
  | Some e => (c', ev ++ [LogScheduledRefreshFailed e])
  | None => (c', ev)
  end.

Definition sleeps (ev : list event) : list time.Duration :=
  flat_map (fun e => match e with Sleep d => [d] | _ => [] end) ev.

(** Everything but the data, the refresh status and the call count. *)
Definition sameSettings (c c' : state) : Prop :=
  t c' = t c /\
  defaultVal c' = defaultVal c /\
  retryMax c' = retryMax c /\
  retryInterval c' = retryInterval c /\
  immediateRefresh c' = immediateRefresh c /\
  initDone c' = initDone c.

(** The number of [GoRefreshLoop] events: goroutines launched. *)
Definition loopsLaunched (ev : list event) : nat :=
  List.length (filter (fun e => match e with GoRefreshLoop => true | _ => false end) ev).

End WithTypes.
End SyncedData.

(** ** Package common: [Pacer] ([pacer.go])

    [last] is a pointer to an atomic time: [None] is the nil pointer, and
    loading through it panics.  The clock reading of a call is an
    argument; [time.Time] and its [Sub] are abstract. *)

Module Pacer.
Section WithTypes.

Context {Time : Type}.
Variable Sub : Time -> Time -> time.Duration.

Record t : Type := { last : option Time; pace : time.Duration }.

(** [Run(f)] and [Go(f)] differ only in how [f] is run: the pacer after
    the call and whether [f] was run; [None] is the panic of the nil
    dereference in [p.last.Load()]. *)
Definition Run (p : t) (now : Time) : option (t * bool) :=
  match last p with
  | None => None
  | Some l =>
      if pace p <? Sub now l
      then Some ({| last := Some now; pace := pace p |}, true)
      else Some (p, false)
  end.

Definition Go (p : t) (now : Time) : option (t * bool) := Run p now.

(** One [Run] per clock reading, in order; the readings at which [f] was
    run. *)
Fixpoint Run_all (p : t) (times : list Time) : option (t * list Time) :=
  match times with
  | [] => Some (p, [])
  | now :: rest =>
      match Run p now with
      | None => None
      | Some (p1, ran) =>
          match Run_all p1 rest with
          | None => None
          | Some (p2, fired) =>
              Some (p2, if ran then now :: fired else fired)
          end
      end
  end.

End WithTypes.
End Pacer.

(** [NewPacerWithRand(pace, extraSec)], [r] being the number drawn by
    [rand.Intn(extraSec)]; [None] is the panic of [rand.Intn] on a
    non-positive argument.  The literal sets [pace] only. *)
Definition NewPacerWithRand {Time : Type} (pace : time.Duration)
    (extraSec r : Z) : option (@Pacer.t Time) :=
  if extraSec <=? 0 then None
  else
    let randpace := GoInt.wrap (r * time.Second) in
    Some {| Pacer.pace := GoInt.add pace randpace; Pacer.last := None |}.

(** ** Sample refresh functions and instance *)

(** A refresh function that fails twice and then answers 42. *)
Definition flakyRefresh (i : nat) : Z * option string :=
  if (i <? 2)%nat then (0, Some "unavailable"%string) else (42, None).

(** A refresh function that always fails. *)
Definition brokenRefresh (i : nat) : Z * option string :=
  (0, Some "unavailable"%string).

(** An instance as [NewSyncedData] leaves it with a retry policy of 3
    retries, 50 ms apart, and default value 7. *)
Definition syncedSample : @SyncedData.state Z Z :=
  {| SyncedData.d := Some 7; SyncedData.t := 60 * time.Second;
     SyncedData.defaultVal := 7; SyncedData.retryMax := 3;
     SyncedData.retryInterval := 50 * time.Millisecond;
     SyncedData.immediateRefresh := true; SyncedData.initDone := false;
     SyncedData.lastRefreshTime := 0; SyncedData.lastRefreshOk := false;
     SyncedData.calls := 0 |}.

(** ** The constructor with the panics of the client

    [kafka.NewReader] returns no error: it panics when the configuration
    fails the client's check, and nothing in the consumer recovers a
    panic, so that the call of [CreateReader] returns nothing.  The client
    (kafka-go v0.4.49, pinned by go.mod) is not part of the repository;
    its check is that of its [ReaderConfig.Validate] and [NewReader], for
    configurations as [createReader] writes them: no group id, and
    [ReadBackoffMax] left at zero, for which the client takes 1 s. *)











(** * Properties *)

(** ** Configuration defaults *)

Ltac split_ifs :=
  repeat (match goal with
          | |- context [if ?b then _ else _] => destruct b eqn:?
          | H : context [if ?b then _ else _] |- _ => destruct b eqn:?
          end; cbn in *).

Ltac bool_to_Z :=
  repeat match goal with
         | H : (_ <=? _) = true |- _ => apply Z.leb_le in H
         | H : (_ <=? _) = false |- _ => apply Z.leb_gt in H
         | H : (_ <? _) = true |- _ => apply Z.ltb_lt in H
         | H : (_ <? _) = false |- _ => apply Z.ltb_ge in H
         end.

Ltac unfold_defaults :=
  unfold applyDefaults, defaultReadBackoffMin, raiseMaxBytes,
    defaultMaxBytes, defaultMinBytes.

Lemma applyDefaults_frame cfg :
  Name (applyDefaults cfg) = Name cfg /\
  Brokers (applyDefaults cfg) = Brokers cfg /\
  Topic (applyDefaults cfg) = Topic cfg /\
  Handler (applyDefaults cfg) = Handler cfg.
Proof. unfold_defaults. split_ifs; auto. Qed.

Lemma applyDefaults_MinBytes cfg :
  MinBytes (applyDefaults cfg) =
  if MinBytes cfg <=? 0 then MINBYTES else MinBytes cfg.
Proof. unfold_defaults. split_ifs; bool_to_Z; try reflexivity; lia. Qed.

Lemma applyDefaults_MaxBytes cfg :
  MaxBytes (applyDefaults cfg) =
  let mn := MinBytes (applyDefaults cfg) in
  let mx := if MaxBytes cfg <=? 0 then MAXBYTES else MaxBytes cfg in
  if mx <? mn then GoInt.add mn 64 else mx.
Proof.
  rewrite applyDefaults_MinBytes. unfold_defaults.
  split_ifs; bool_to_Z; try reflexivity; lia.
Qed.

Lemma applyDefaults_ReadBackoffMin cfg :
  ReadBackoffMin (applyDefaults cfg) =
  if ReadBackoffMin cfg <=? READBACKOFFMIN
  then READBACKOFFMIN else ReadBackoffMin cfg.
Proof. unfold_defaults. split_ifs; bool_to_Z; try reflexivity; lia. Qed.

(** ** Shape of the results of the catalog and of the worker loop of the
    constructor *)

Lemma LookupPartitions_from_error env log topic brokers :
  forall calls,
    let res := fst (kafkalib.LookupPartitions_from env calls log brokers topic) in
    snd res = None \/ res = ([], Some ErrNonePartionFound).
Proof.
  induction brokers as [|addr rest IH]; intros calls; cbn.
  - right; reflexivity.
  - match goal with
    | |- context [env_LookupPartitions ?e ?c ?t ?n ?a ?tp] =>
        destruct (env_LookupPartitions e c t n a tp) as [parts [e'|]]
    end; cbn.
    + specialize (IH (S calls)).
      destruct (kafkalib.LookupPartitions_from env (S calls) log rest topic)
        as [res tr']; cbn in *.
      exact IH.
    + left; reflexivity.
Qed.

Lemma newPartitionReaders_shape env rd todo :
  forall acc,
    let res := fst (newPartitionReaders env rd todo acc) in
    (exists rs, res = (Some rs, None)) \/
    (exists e, res = (None, Some (KafkaErr e))).
Proof.
  induction todo as [|p rest IH]; intros acc; cbn.
  - left; eexists; reflexivity.
  - match goal with
    | |- context [env_SetOffset ?e ?c ?r ?o] =>
        destruct (env_SetOffset e c r o) as [e'|]
    end; cbn.
    + right; eexists; reflexivity.
    + match goal with
      | |- context [newPartitionReaders env rd rest ?a] =>
          specialize (IH a);
          destruct (newPartitionReaders env rd rest a) as [res tr']
      end; cbn in *; exact IH.
Qed.

(** ** The constructor, case by case *)

Lemma CreateReader_valid env cfg h :
  Brokers cfg <> [] -> Topic cfg <> EmptyString -> Handler cfg = Some h ->
  CreateReader env cfg = construct env h (applyDefaults cfg).
Proof.
  intros Hb Ht Hh. unfold CreateReader.
  destruct (Brokers cfg) as [|b bs] eqn:Eb; [congruence|]. cbn [List.length Nat.eqb].
  destruct (String.eqb_spec (Topic cfg) EmptyString) as [|_]; [congruence|].
  rewrite Hh. reflexivity.
Qed.

Lemma construct_cfg env h cfg : fst (fst (construct env h cfg)) = cfg.
Proof.
  unfold construct.
  destruct (kafkalib.LookupPartitions env (loggerFor cfg) (Brokers cfg) (Topic cfg))
    as [[parts [e|]] tr]; cbn; [reflexivity|].
  destruct (newPartitionReaders env (mkShared h cfg parts) parts [])
    as [[[rs|] [e|]] tr']; reflexivity.
Qed.

Lemma construct_error env h cfg :
  isConfigError (snd (snd (fst (construct env h cfg)))) = false.
Proof.
  unfold construct.
  pose proof (LookupPartitions_from_error env (loggerFor cfg) (Topic cfg)
                (Brokers cfg) 0%nat) as HL.
  unfold kafkalib.LookupPartitions.
  destruct (kafkalib.LookupPartitions_from env 0 (loggerFor cfg) (Brokers cfg) (Topic cfg))
    as [[parts [e|]] tr]; cbn in *.
  - destruct HL as [HL|HL]; [discriminate|]. inversion HL; reflexivity.
  - pose proof (newPartitionReaders_shape env (mkShared h cfg parts) parts []) as HN.
    destruct (newPartitionReaders env (mkShared h cfg parts) parts [])
      as [[rs e'] tr']; cbn in *.
    destruct HN as [[rs' HN]|[e HN]]; inversion HN; subst; reflexivity.
Qed.

Lemma construct_success env h cfg r :
  snd (fst (construct env h cfg)) = (Some r, None) ->
  exists parts, shared r = mkShared h cfg parts.
Proof.
  unfold construct.
  destruct (kafkalib.LookupPartitions env (loggerFor cfg) (Brokers cfg) (Topic cfg))
    as [[parts [e|]] tr]; cbn; [discriminate|].
  destruct (newPartitionReaders env (mkShared h cfg parts) parts [])
    as [[[rs|] [e|]] tr']; cbn; intros H; inversion H; subst.
  exists parts; reflexivity.
Qed.

Lemma CreateReader_success env cfg r :
  returned env cfg = (Some r, None) ->
  exists h parts,
    Brokers cfg <> [] /\ Topic cfg <> EmptyString /\ Handler cfg = Some h /\
    shared r = mkShared h (applyDefaults cfg) parts /\
    cfgAfter env cfg = applyDefaults cfg.
Proof.
  unfold returned, cfgAfter. intros H.
  destruct (Brokers cfg) as [|b bs] eqn:Eb.
  { unfold CreateReader in H. rewrite Eb in H. discriminate. }
  destruct (String.eqb_spec (Topic cfg) EmptyString) as [Et|Et].
  { unfold CreateReader in H. rewrite Eb, Et in H. discriminate. }
  destruct (Handler cfg) as [h|] eqn:Eh.
  2:{ unfold CreateReader in H. rewrite Eb, Eh in H. cbn in H.
      destruct (Topic cfg =? EmptyString)%string; discriminate. }
  assert (Hb : Brokers cfg <> []) by (rewrite Eb; discriminate).
  rewrite (CreateReader_valid env cfg h Hb Et Eh) in *.
  destruct (construct_success _ _ _ _ H) as [parts Hs].
  exists h, parts. rewrite construct_cfg. repeat split; auto. discriminate.
Qed.

(** ** Validation *)

(** C3. [CreateReader] returns a configuration error exactly when the
    broker list is empty, the topic is empty or the handler is nil; the
    checks run in that order, so [ErrNoBrokers] ("no brokers") is returned
    exactly for an empty broker list, [ErrNoTopic] ("no topic") exactly
    for an empty topic with brokers present, [ErrNoHandler] ("no handler")
    exactly for a nil handler with brokers and topic present; whatever the
    brokers answer and whatever the other fields hold, no other case
    gives one of the three errors. *)
Theorem CreateReader_config_error_iff (env : Env) (cfg : Config) :
  let err := snd (returned env cfg) in
  (isConfigError err = true <->
     Brokers cfg = [] \/ Topic cfg = EmptyString \/ Handler cfg = None) /\
  (err = Some ErrNoBrokers <-> Brokers cfg = []) /\
  (err = Some ErrNoTopic <-> Brokers cfg <> [] /\ Topic cfg = EmptyString) /\
  (err = Some ErrNoHandler <->
     Brokers cfg <> [] /\ Topic cfg <> EmptyString /\ Handler cfg = None) /\
  (isConfigError err = true -> fst (returned env cfg) = None) /\
  errorString ErrNoBrokers = "no brokers"%string /\
  errorString ErrNoTopic = "no topic"%string /\
  errorString ErrNoHandler = "no handler"%string.
Proof.
  cbv zeta. unfold returned.
  destruct (Brokers cfg) as [|b bs] eqn:Eb.
  { unfold CreateReader; rewrite Eb; cbn.
    repeat split; intros; auto; try discriminate; try tauto;
      try (exfalso; intuition congruence). }
  destruct (String.eqb_spec (Topic cfg) EmptyString) as [Et|Et].
  { unfold CreateReader; rewrite Eb, Et; cbn.
    repeat split; intros; auto; try discriminate; try tauto;
      try (exfalso; intuition congruence). }
  destruct (Handler cfg) as [h|] eqn:Eh.
  2:{ unfold CreateReader; rewrite Eb, Eh; cbn.
      destruct (String.eqb_spec (Topic cfg) EmptyString) as [|_]; [contradiction|]. cbn.
      repeat split; intros; auto; try discriminate; try tauto;
        try (exfalso; intuition congruence). }
  assert (Hb : Brokers cfg <> []) by (rewrite Eb; discriminate).
  rewrite (CreateReader_valid env cfg h Hb Et Eh).
  pose proof (construct_error env h (applyDefaults cfg)) as Hc.
  destruct (snd (snd (fst (construct env h (applyDefaults cfg)))))
    as [[| | | |e]|]; cbn in Hc; try discriminate;
    repeat split; intros; auto; try discriminate; try tauto;
      try (exfalso; intuition congruence).
Qed.

Lemma CreateReader_config_error_iff_witness :
  snd (returned (envHealthy []) (cfgSample 0 0 0)) <> Some ErrNoBrokers /\
  fst (returned (envHealthy [])
         {| Name := EmptyString; Brokers := []; Topic := EmptyString; MinBytes := 0;
            MaxBytes := 0; ReadBackoffMin := 0; Handler := None |}) = None.
Proof.
  split.
  - intros H.
    apply (proj1 (proj1 (proj2 (CreateReader_config_error_iff _ _)))) in H.
    discriminate H.
  - apply (proj1 (proj2 (proj2 (proj2 (proj2
             (CreateReader_config_error_iff _ _)))))).
    reflexivity.
Defined.

(** ** Byte thresholds *)

Lemma applyDefaults_max_ge_min cfg :
  MinBytes cfg <= GoInt.max_int - 64 ->
  MinBytes (applyDefaults cfg) <= MaxBytes (applyDefaults cfg).
Proof.
  intros Hr. rewrite applyDefaults_MaxBytes, applyDefaults_MinBytes. cbv zeta.
  unfold GoInt.add, GoInt.wrap, GoInt.max_int, GoInt.min_int, GoInt.modulus,
    GoInt.bits, MINBYTES, MAXBYTES in *.
  change (2 ^ (64 - 1)) with 9223372036854775808 in *.
  change (2 ^ 64) with 18446744073709551616 in *.
  split_ifs; bool_to_Z; try lia.
  all: rewrite Z.mod_small; lia.
Qed.

(** C7. The repair [cfg.MaxBytes = cfg.MinBytes + 64] wraps around when
    the minimum lies within 64 of the largest [int]: construction succeeds
    (here against a topic without partitions) and leaves the effective
    maximum below the effective minimum. *)
Theorem CreateReader_max_below_min_on_overflow :
  exists r,
    returned (envHealthy []) cfgOverflow = (Some r, None) /\
    minBytes (shared r) = 9223372036854775807 /\
    maxBytes (shared r) = -9223372036854775745 /\
    maxBytes (shared r) < minBytes (shared r) /\
    MaxBytes (cfgAfter (envHealthy []) cfgOverflow)
      < MinBytes (cfgAfter (envHealthy []) cfgOverflow).
Proof.
  eexists. split; [vm_compute; reflexivity|].
  vm_compute. repeat split; reflexivity.
Qed.

(** ** Reconnect backoff *)

(** C8, as stated, fails: a positive backoff of 50 ms is supplied,
    construction succeeds, and both the reader and the caller's
    configuration end up with 100 ms. *)
Lemma CreateReader_backoff_50ms_overwritten :
  let cfg := cfgSample 0 0 (time.Millisecond * 50) in
  let env := envHealthy [partitionOf "orders" 0] in
  0 < ReadBackoffMin cfg /\
  exists r,
    returned env cfg = (Some r, None) /\
    readBackoffMin (shared r) = time.Millisecond * 100 /\
    readBackoffMin (shared r) <> ReadBackoffMin cfg /\
    ReadBackoffMin (cfgAfter env cfg) <> ReadBackoffMin cfg.
Proof.
  cbv zeta. split; [reflexivity|].
  eexists. split; [vm_compute; reflexivity|].
  cbn. repeat split; discriminate.
Qed.

(** C8, amended. [READBACKOFFMIN] (100 ms) is a floor: after a successful
    construction a supplied backoff above 100 ms is kept unchanged, and
    every backoff of at most 100 ms (unset, negative, or positive) is
    replaced by 100 ms, in the reader and in the caller's configuration
    alike. *)
Theorem CreateReader_backoff_floor (env : Env) (cfg : Config) (r : Reader) :
  returned env cfg = (Some r, None) ->
  READBACKOFFMIN = 100000000 /\
  readBackoffMin (shared r) = ReadBackoffMin (cfgAfter env cfg) /\
  (READBACKOFFMIN < ReadBackoffMin cfg ->
     readBackoffMin (shared r) = ReadBackoffMin cfg) /\
  (ReadBackoffMin cfg <= READBACKOFFMIN ->
     readBackoffMin (shared r) = READBACKOFFMIN).
Proof.
  intros H.
  destruct (CreateReader_success env cfg r H)
    as (h & parts & _ & _ & _ & Hs & Hc).
  rewrite Hs, Hc. cbn [readBackoffMin mkShared].
  rewrite applyDefaults_ReadBackoffMin.
  split; [reflexivity|]. split; [reflexivity|].
  split; intros Hlt.
  - apply Z.leb_gt in Hlt. rewrite Hlt. reflexivity.
  - apply Z.leb_le in Hlt. rewrite Hlt. reflexivity.
Qed.

Lemma CreateReader_backoff_floor_witness :
  exists r,
    returned (envHealthy [partitionOf "orders" 0])
      (cfgSample 0 0 (time.Millisecond * 250)) = (Some r, None) /\
    readBackoffMin (shared r) = 250000000.
Proof.
  eexists. split; [vm_compute; reflexivity|].
  refine (proj1 (proj2 (proj2 (CreateReader_backoff_floor
            (envHealthy [partitionOf "orders" 0])
            (cfgSample 0 0 (time.Millisecond * 250)) _ _))) _).
  - vm_compute; reflexivity.
  - vm_compute; reflexivity.
Defined.

(** ** The caller's configuration after the call *)

(** C10. Once validation has passed, [CreateReader] leaves the defaulted
    and clamped values in the caller's [Config], whether the rest of the
    construction succeeds or not: the three fields are functions of the
    supplied configuration alone; an unset threshold is overwritten with
    its default; a negative threshold gives the same configuration as an
    unset one. *)
Theorem CreateReader_mutates_cfg (env : Env) (cfg : Config) :
  Brokers cfg <> [] -> Topic cfg <> EmptyString -> Handler cfg <> None ->
  let cfg' := cfgAfter env cfg in
  MinBytes cfg' = (if MinBytes cfg <=? 0 then 512 else MinBytes cfg) /\
  MaxBytes cfg' =
    (let mx := if MaxBytes cfg <=? 0 then 4194304 else MaxBytes cfg in
     if mx <? MinBytes cfg' then GoInt.add (MinBytes cfg') 64 else mx) /\
  ReadBackoffMin cfg' =
    (if ReadBackoffMin cfg <=? 100000000
     then 100000000 else ReadBackoffMin cfg) /\
  (MinBytes cfg <= 0 -> MinBytes cfg' = 512 /\ MinBytes cfg' <> MinBytes cfg) /\
  (MaxBytes cfg <= 0 ->
     MaxBytes (defaultMaxBytes (defaultMinBytes cfg)) = 4194304 /\
     (MinBytes cfg' <= 4194304 ->
      MaxBytes cfg' = 4194304 /\ MaxBytes cfg' <> MaxBytes cfg)) /\
  (MinBytes cfg < 0 -> cfg' = cfgAfter env (set_MinBytes 0 cfg)) /\
  (MaxBytes cfg < 0 -> cfg' = cfgAfter env (set_MaxBytes 0 cfg)).
Proof.
  intros Hb Ht Hh. destruct (Handler cfg) as [h|] eqn:Eh; [clear Hh|congruence].
  cbv zeta. unfold cfgAfter.
  rewrite (CreateReader_valid env cfg h Hb Ht Eh), construct_cfg.
  rewrite (CreateReader_valid env (set_MinBytes 0 cfg) h Hb Ht Eh), construct_cfg.
  rewrite (CreateReader_valid env (set_MaxBytes 0 cfg) h Hb Ht Eh), construct_cfg.
  rewrite applyDefaults_MaxBytes, applyDefaults_MinBytes,
    applyDefaults_ReadBackoffMin.
  change MINBYTES with 512. change MAXBYTES with 4194304.
  change READBACKOFFMIN with 100000000. cbv zeta.
  split; [reflexivity|]. split; [reflexivity|]. split; [reflexivity|].
  split; [|split; [|split]].
  - intros Hle. apply Z.leb_le in Hle. rewrite Hle.
    apply Z.leb_le in Hle. split; [reflexivity|lia].
  - intros Hle. split.
    + unfold defaultMaxBytes, defaultMinBytes.
      split_ifs; bool_to_Z; try reflexivity; lia.
    + pose proof Hle as Hle'. apply Z.leb_le in Hle'. rewrite Hle'.
      intros Hmin. apply Z.ltb_ge in Hmin. rewrite Hmin.
      split; [reflexivity|lia].
  - intros Hneg. unfold_defaults. unfold set_MinBytes.
    split_ifs; bool_to_Z; try reflexivity; lia.
  - intros Hneg. unfold_defaults. unfold set_MaxBytes.
    split_ifs; bool_to_Z; try reflexivity; lia.
Qed.

(** ** The partition catalog *)

Lemma LookupPartitions_from_cons env calls log addr rest topic :
  kafkalib.LookupPartitions_from env calls log (addr :: rest) topic =
  match env_LookupPartitions env calls (3 * time.Second) "tcp" addr topic with
  | (partitions, None) =>
      ((partitions, None), [EvLookup (3 * time.Second) "tcp" addr topic])
  | (_, Some e) =>
      let '(res, tr') :=
        kafkalib.LookupPartitions_from env (S calls) log rest topic in
      (res, [EvLookup (3 * time.Second) "tcp" addr topic]
            ++ [EvLogError log "lookupPartions failed" (KafkaErr e)] ++ tr')
  end.
Proof.
  cbn [kafkalib.LookupPartitions_from]. unfold kafkalib.lookupPartitions.
  destruct (env_LookupPartitions env calls (3 * time.Second) "tcp" addr topic)
    as [parts [e|]]; reflexivity.
Qed.

Lemma queried_app tr1 tr2 : queried (tr1 ++ tr2) = queried tr1 ++ queried tr2.
Proof. unfold queried. apply flat_map_app. Qed.

Lemma LookupPartitions_from_all_fail env log topic brokers :
  forall calls,
    (forall i addr, nth_error brokers i = Some addr ->
                    lookupFails env topic (calls + i) addr) ->
    let res := kafkalib.LookupPartitions_from env calls log brokers topic in
    fst res = ([], Some ErrNonePartionFound) /\
    queried (snd res) = map (queryFor topic) brokers.
Proof.
  induction brokers as [|addr rest IH]; intros calls Hfail.
  - split; reflexivity.
  - rewrite LookupPartitions_from_cons.
    pose proof (Hfail 0%nat addr eq_refl) as H0.
    unfold lookupFails in H0. rewrite Nat.add_0_r in H0.
    destruct (env_LookupPartitions env calls (3 * time.Second) "tcp" addr topic)
      as [parts [e|]]; [|cbn in H0; congruence].
    specialize (IH (S calls)).
    destruct (kafkalib.LookupPartitions_from env (S calls) log rest topic)
      as [res tr'].
    destruct IH as [IH1 IH2].
    { intros i a Hi. replace (S calls + i)%nat with (calls + S i)%nat by lia.
      apply Hfail. exact Hi. }
    cbn [fst snd] in IH1, IH2. cbv zeta. split; [exact IH1|].
    cbn [snd]. rewrite !queried_app, IH2. reflexivity.
Qed.

Lemma LookupPartitions_from_first_success env log topic pre a post parts :
  forall calls,
    (forall i addr, nth_error pre i = Some addr ->
                    lookupFails env topic (calls + i) addr) ->
    env_LookupPartitions env (calls + List.length pre) (3 * time.Second)
      "tcp" a topic = (parts, None) ->
    let res :=
      kafkalib.LookupPartitions_from env calls log (pre ++ a :: post) topic in
    fst res = (parts, None) /\
    queried (snd res) = map (queryFor topic) (pre ++ [a]).
Proof.
  induction pre as [|addr rest IH]; intros calls Hfail Hok.
  - cbn [app List.length] in *. rewrite Nat.add_0_r in Hok.
    rewrite LookupPartitions_from_cons, Hok. split; reflexivity.
  - cbn [app]. rewrite LookupPartitions_from_cons.
    pose proof (Hfail 0%nat addr eq_refl) as H0.
    unfold lookupFails in H0. rewrite Nat.add_0_r in H0.
    destruct (env_LookupPartitions env calls (3 * time.Second) "tcp" addr topic)
      as [parts0 [e|]]; [|cbn in H0; congruence].
    specialize (IH (S calls)).
    destruct (kafkalib.LookupPartitions_from env (S calls) log
                (rest ++ a :: post) topic) as [res tr'].
    destruct IH as [IH1 IH2].
    { intros i a' Hi. replace (S calls + i)%nat with (calls + S i)%nat by lia.
      apply Hfail. exact Hi. }
    { rewrite <- Hok. f_equal. cbn [List.length]. lia. }
    cbn [fst snd] in IH1, IH2. cbv zeta. split; [exact IH1|].
    cbn [snd]. rewrite !queried_app, IH2. reflexivity.
Qed.

(** C4. [LookupPartitions] queries the addresses in the order given, each
    one alone, over "tcp" and with a 3 s deadline.  If the queries to the
    addresses [pre] fail and the next address [a] answers, the result is
    [a]'s partition list with a nil error and the queries sent are exactly
    those for [pre] and [a]: no address after [a] is queried.  If every
    query fails, every address has been queried once, in order, and the
    result is a nil list with the one error [ErrNonePartionFound] ("none
    partition found"). *)
Theorem LookupPartitions_failover (env : Env) (log : Logger) (topic : string) :
  3 * time.Second = 3000000000 /\
  errorString ErrNonePartionFound = "none partition found"%string /\
  (forall pre a post parts,
      (forall i addr, nth_error pre i = Some addr ->
                      lookupFails env topic i addr) ->
      env_LookupPartitions env (List.length pre) (3 * time.Second)
        "tcp" a topic = (parts, None) ->
      let res := kafkalib.LookupPartitions env log (pre ++ a :: post) topic in
      fst res = (parts, None) /\
      queried (snd res) = map (queryFor topic) (pre ++ [a])) /\
  (forall brokers,
      (forall i addr, nth_error brokers i = Some addr ->
                      lookupFails env topic i addr) ->
      let res := kafkalib.LookupPartitions env log brokers topic in
      fst res = ([], Some ErrNonePartionFound) /\
      queried (snd res) = map (queryFor topic) brokers).
Proof.
  split; [reflexivity|]. split; [reflexivity|]. split.
  - intros pre a post parts Hfail Hok.
    apply LookupPartitions_from_first_success; assumption.
  - intros brokers Hfail.
    apply LookupPartitions_from_all_fail; assumption.
Qed.

(** ** Construction of the workers *)

Lemma opened_app tr1 tr2 : opened (tr1 ++ tr2) = opened tr1 ++ opened tr2.
Proof. unfold opened. apply flat_map_app. Qed.

Lemma NewPartitionReader_eq env k rd p :
  NewPartitionReader env k rd p =
  ((workerFor rd p, initialSeek env rd k p),
   [EvNewReader (readerConfig (newWorker rd p));
    EvSetOffset (kafka.NewReader (readerConfig (newWorker rd p)))
      kafka.LastOffset]).
Proof. reflexivity. Qed.

Lemma newPartitionReaders_cons env rd p rest acc :
  newPartitionReaders env rd (p :: rest) acc =
  let tr := [EvNewReader (readerConfig (newWorker rd p));
             EvSetOffset (kafka.NewReader (readerConfig (newWorker rd p)))
               kafka.LastOffset] in
  match initialSeek env rd (List.length acc) p with
  | Some e =>
      ((None, Some (KafkaErr e)),
       tr ++ [EvLogError (rlog rd) "createReader failed" (KafkaErr e)])
  | None =>
      let '(res, tr') :=
        newPartitionReaders env rd rest (acc ++ [workerFor rd p]) in
      (res, tr ++ tr')
  end.
Proof.
  cbn [newPartitionReaders]. rewrite NewPartitionReader_eq.
  destruct (initialSeek env rd (List.length acc) p); reflexivity.
Qed.




Lemma opened_lookup env log topic brokers :
  forall calls,
    opened (snd (kafkalib.LookupPartitions_from env calls log brokers topic)) = [].
Proof.
  induction brokers as [|addr rest IH]; intros calls; [reflexivity|].
  rewrite LookupPartitions_from_cons.
  destruct (env_LookupPartitions env calls (3 * time.Second) "tcp" addr topic)
    as [parts [e|]]; [|reflexivity].
  specialize (IH (S calls)).
  destruct (kafkalib.LookupPartitions_from env (S calls) log rest topic)
    as [res tr'].
  cbn [snd] in *. rewrite !opened_app, IH. reflexivity.
Qed.

Lemma loggerFor_applyDefaults cfg : loggerFor (applyDefaults cfg) = loggerFor cfg.
Proof.
  unfold loggerFor. destruct (applyDefaults_frame cfg) as [-> _]. reflexivity.
Qed.


(** ** The worker loop, step by step *)

Section WorkerLoop.

(** The partition's side of the conversation: any answers whatever. *)
Variable env : Env.

Lemma readerConfig_connect pr : readerConfig (connect pr) = readerConfig pr.
Proof. reflexivity. Qed.

Lemma connect_connect pr : connect (connect pr) = connect pr.
Proof. reflexivity. Qed.

Lemma seekAnswer_connect i pr :
  seekAnswer env i (connect pr) = seekAnswer env i pr.
Proof. reflexivity. Qed.

Lemma step_fetched w r msg :
  at_phase w = Consuming -> reader (self w) = Some r ->
  env_FetchMessage env (fetches w) r = (msg, None) ->
  step env w =
  if kafka.Offset msg <=? maxOffset w
  then ({| self := self w; maxOffset := maxOffset w; at_phase := Consuming;
           fetches := S (fetches w); seeks := seeks w |}, [])
  else ({| self := self w; maxOffset := kafka.Offset msg;
           at_phase := Consuming;
           fetches := S (fetches w); seeks := seeks w |},
        [EvHandle (handleEvent (parent (self w))) (log (self w)) msg]).
Proof.
  intros Hp Hr Hf. unfold step. rewrite Hp, Hr, Hf. reflexivity.
Qed.

Lemma step_fetch_failed w r msg e :
  at_phase w = Consuming -> reader (self w) = Some r ->
  env_FetchMessage env (fetches w) r = (msg, Some e) ->
  step env w =
  ({| self := self w; maxOffset := maxOffset w; at_phase := Recovering;
      fetches := S (fetches w); seeks := seeks w |},
   [EvSleep (time.Millisecond * 200);
    EvLogError (log (self w)) "reader broken, start to recover..." (KafkaErr e);
    EvClose r]).
Proof.
  intros Hp Hr Hf. unfold step, recover_close. rewrite Hp, Hr, Hf. reflexivity.
Qed.

Lemma step_recovering w :
  at_phase w = Recovering ->
  step env w =
  match seekAnswer env (seeks w) (self w) with
  | Some e =>
      ({| self := connect (self w); maxOffset := maxOffset w;
          at_phase := Recovering;
          fetches := fetches w; seeks := S (seeks w) |},
       connectTrace (self w)
       ++ [EvLogError (log (self w)) "recover failed" (KafkaErr e);
           EvSleep (time.Second * 3)])
  | None =>
      ({| self := connect (self w); maxOffset := maxOffset w;
          at_phase := Consuming;
          fetches := fetches w; seeks := S (seeks w) |},
       connectTrace (self w))
  end.
Proof.
  intros Hp. unfold step, createReader, seekAnswer. rewrite Hp.
  destruct (env_SetOffset env (seeks w) (kafka.NewReader (readerConfig (self w)))
              kafka.LastOffset); reflexivity.
Qed.

Lemma run_S n w :
  run env (S n) w =
  (fst (run env n (fst (step env w))),
   snd (step env w) ++ snd (run env n (fst (step env w)))).
Proof.
  cbn [run]. destruct (step env w) as [w1 tr1]. cbn [fst snd].
  destruct (run env n w1) as [w2 tr2]. reflexivity.
Qed.

Lemma run_add n m w :
  run env (n + m) w =
  (fst (run env m (fst (run env n w))),
   snd (run env n w) ++ snd (run env m (fst (run env n w)))).
Proof.
  revert w. induction n as [|n IH]; intros w.
  - cbn. destruct (run env m w); reflexivity.
  - cbn [Nat.add]. rewrite !run_S, IH. cbn [fst snd].
    rewrite app_assoc. reflexivity.
Qed.

Lemma delivered_app tr1 tr2 :
  delivered (tr1 ++ tr2) = delivered tr1 ++ delivered tr2.
Proof. unfold delivered. apply flat_map_app. Qed.

Lemma deliveredOffsets_app tr1 tr2 :
  deliveredOffsets (tr1 ++ tr2) = deliveredOffsets tr1 ++ deliveredOffsets tr2.
Proof. unfold deliveredOffsets. rewrite delivered_app. apply map_app. Qed.

Lemma seekTargets_app tr1 tr2 :
  seekTargets (tr1 ++ tr2) = seekTargets tr1 ++ seekTargets tr2.
Proof. unfold seekTargets. apply flat_map_app. Qed.

Lemma slept_app tr1 tr2 : slept (tr1 ++ tr2) = slept tr1 ++ slept tr2.
Proof. unfold slept. apply flat_map_app. Qed.

(** One step delivers nothing and keeps [maxOffset], or delivers one
    message above it and moves [maxOffset] there. *)
Lemma step_delivery w :
  (deliveredOffsets (snd (step env w)) = [] /\
   maxOffset (fst (step env w)) = maxOffset w) \/
  (exists o, deliveredOffsets (snd (step env w)) = [o] /\
             maxOffset w < o /\ maxOffset (fst (step env w)) = o).
Proof.
  unfold step.
  destruct (at_phase w) eqn:Hp.
  - destruct (reader (self w)) as [r|]; [|left; split; reflexivity].
    destruct (env_FetchMessage env (fetches w) r) as [msg [e|]].
    + left. unfold recover_close.
      destruct (reader (self w)); split; reflexivity.
    + destruct (Z.leb_spec (kafka.Offset msg) (maxOffset w)).
      * left; split; reflexivity.
      * right. exists (kafka.Offset msg). repeat split; auto.
  - unfold createReader.
    destruct (env_SetOffset env (seeks w) _ kafka.LastOffset);
      left; split; reflexivity.
  - left; split; reflexivity.
Qed.

Lemma run_delivery n :
  forall w,
    let res := run env n w in
    StronglySorted Z.lt (deliveredOffsets (snd res)) /\
    Forall (fun o => maxOffset w < o <= maxOffset (fst res))
      (deliveredOffsets (snd res)) /\
    maxOffset w <= maxOffset (fst res).
Proof.
  induction n as [|n IH]; intros w; cbv zeta.
  - cbn. repeat split; try constructor; lia.
  - rewrite run_S. cbn [fst snd]. rewrite deliveredOffsets_app.
    destruct (IH (fst (step env w))) as (Hs & Hf & Hm).
    destruct (step_delivery w) as [[Hd Hk]|(o & Hd & Hlt & Hk)];
      rewrite Hd; cbn [app].
    + rewrite Hk in *. repeat split; assumption.
    + rewrite Hk in *. repeat split.
      * constructor; [assumption|].
        eapply Forall_impl; [|exact Hf]. cbn. intros a Ha; lia.
      * constructor; [lia|].
        eapply Forall_impl; [|exact Hf]. cbn. intros a Ha; lia.
      * lia.
Qed.

(** ** Delivery order *)

(** C1. Whatever a worker fetches, the offsets it hands to the handler are
    strictly increasing.  At a successful fetch, a message whose offset is
    at most the tracked maximum is dropped (no handler call, maximum
    unchanged); any other message becomes the new maximum and is handed to
    the handler, together with the worker's logger. *)
Theorem Start_delivers_increasing (pr : PartitionReader) (n : nat) :
  StronglySorted Z.lt (deliveredOffsets (snd (run env n (Start_init pr)))) /\
  (forall w m, StronglySorted Z.lt (deliveredOffsets (snd (run env m w)))) /\
  (forall w r msg,
      at_phase w = Consuming -> reader (self w) = Some r ->
      env_FetchMessage env (fetches w) r = (msg, None) ->
      let w' := fst (step env w) in
      let tr := snd (step env w) in
      at_phase w' = Consuming /\
      (kafka.Offset msg <= maxOffset w ->
         tr = [] /\ maxOffset w' = maxOffset w) /\
      (maxOffset w < kafka.Offset msg ->
         tr = [EvHandle (handleEvent (parent (self w))) (log (self w)) msg] /\
         maxOffset w' = kafka.Offset msg)).
Proof.
  split; [apply run_delivery|]. split; [intros w m; apply run_delivery|].
  intros w r msg Hp Hr Hf. cbv zeta.
  rewrite (step_fetched w r msg Hp Hr Hf).
  destruct (Z.leb_spec (kafka.Offset msg) (maxOffset w)); cbn [fst snd at_phase maxOffset].
  - split; [reflexivity|]. split; [intros _; split; reflexivity|lia].
  - split; [reflexivity|]. split; [lia|intros _; split; reflexivity].
Qed.

(** C9. [maxOffset] starts at 0 and the filter drops every offset that
    is not above it: no message at offset 0 ever reaches the handler, and
    everything a handler sees from the partition has an offset of at
    least 1. *)
Theorem Start_never_delivers_offset_zero (pr : PartitionReader) (n : nat) :
  maxOffset (Start_init pr) = 0 /\
  Forall (fun m => 1 <= kafka.Offset m)
    (delivered (snd (run env n (Start_init pr)))) /\
  ~ In 0 (deliveredOffsets (snd (run env n (Start_init pr)))).
Proof.
  split; [reflexivity|].
  destruct (run_delivery n (Start_init pr)) as (_ & Hf & _).
  cbn [Start_init maxOffset] in Hf.
  rewrite Forall_forall in Hf. split.
  - apply Forall_forall. intros m Hin.
    specialize (Hf (kafka.Offset m)).
    unfold deliveredOffsets in Hf.
    specialize (Hf (in_map kafka.Offset _ _ Hin)). lia.
  - intros Hin. specialize (Hf 0 Hin). lia.
Qed.

(** ** Recovery *)

Lemma opened_connectTrace pr : opened (connectTrace pr) = [readerConfig pr].
Proof. reflexivity. Qed.

(** [k] failed attempts in a row keep the worker in [recover]. *)
Lemma run_retries k :
  forall w,
    at_phase w = Recovering ->
    (forall j, (j < k)%nat -> seekAnswer env (seeks w + j) (self w) <> None) ->
    let res := run env k w in
    at_phase (fst res) = Recovering /\
    maxOffset (fst res) = maxOffset w /\
    fetches (fst res) = fetches w /\
    seeks (fst res) = (seeks w + k)%nat /\
    self (fst res) = match k with O => self w | S _ => connect (self w) end /\
    opened (snd res) = repeat (readerConfig (self w)) k /\
    seekTargets (snd res) = repeat kafka.LastOffset k /\
    slept (snd res) = repeat (time.Second * 3) k /\
    delivered (snd res) = [].
Proof.
  induction k as [|k IH]; intros w Hp Hfail; cbv zeta.
  - cbn. rewrite Nat.add_0_r. repeat split; assumption.
  - rewrite run_S, (step_recovering w Hp).
    pose proof (Hfail 0%nat ltac:(lia)) as H0. rewrite Nat.add_0_r in H0.
    destruct (seekAnswer env (seeks w) (self w)) as [e|]; [clear H0|congruence].
    cbn [fst snd].
    match goal with
    | |- context [run env k ?w1] => specialize (IH w1 eq_refl)
    end.
    cbn [self seeks maxOffset fetches] in IH.
    destruct IH as (I1 & I2 & I3 & I4 & I5 & I6 & I7 & I8 & I9).
    { intros j Hj. rewrite seekAnswer_connect.
      replace (S (seeks w) + j)%nat with (seeks w + S j)%nat by lia.
      apply Hfail. lia. }
    rewrite opened_app, seekTargets_app, slept_app, delivered_app.
    rewrite I6, I7, I8, I9, I1, I2, I3, I4, I5.
    repeat split; try reflexivity; try lia.
    destruct k; reflexivity.
Qed.

Lemma step_running w :
  running w -> reader (self w) <> None ->
  running (fst (step env w)) /\ reader (self (fst (step env w))) <> None.
Proof.
  intros [Hp|Hp] Hr.
  - destruct (reader (self w)) as [r|] eqn:Er; [|congruence].
    destruct (env_FetchMessage env (fetches w) r) as [msg [e|]] eqn:Ef.
    + rewrite (step_fetch_failed w r msg e Hp Er Ef). cbn.
      split; [right; reflexivity|congruence].
    + rewrite (step_fetched w r msg Hp Er Ef).
      destruct (kafka.Offset msg <=? maxOffset w); cbn;
        (split; [left; reflexivity|congruence]).
  - rewrite (step_recovering w Hp).
    destruct (seekAnswer env (seeks w) (self w)); cbn;
      (split; [first [left; reflexivity|right; reflexivity]|discriminate]).
Qed.

Lemma run_running n :
  forall w,
    running w -> reader (self w) <> None ->
    running (fst (run env n w)) /\ reader (self (fst (run env n w))) <> None.
Proof.
  induction n as [|n IH]; intros w Hw Hr.
  - cbn. split; assumption.
  - rewrite run_S. cbn [fst].
    destruct (step_running w Hw Hr) as [Hw1 Hr1].
    apply IH; assumption.
Qed.

(** C5. When a fetch fails the worker sleeps 200 ms, logs, closes the
    connection it holds and enters [recover].  There, every attempt opens a
    connection with the worker's unchanged configuration and seeks it; as
    long as the attempts fail the worker stays in [recover], each failure
    followed by a 3 s sleep and a further attempt, however many there are;
    the worker is back at fetching exactly when an attempt succeeded.
    Nothing stops the loop: after any number of interactions the worker is
    still fetching or recovering. *)
Theorem recover_retries_until_connected
    (w : Worker) (r : kafka.Reader) (msg : kafka.Message)
    (e : kafka.Error) :
  at_phase w = Consuming -> reader (self w) = Some r ->
  env_FetchMessage env (fetches w) r = (msg, Some e) ->
  let w1 := fst (step env w) in
  time.Millisecond * 200 = 200000000 /\ time.Second * 3 = 3000000000 /\
  snd (step env w) =
    [EvSleep (time.Millisecond * 200);
     EvLogError (log (self w)) "reader broken, start to recover..." (KafkaErr e);
     EvClose r] /\
  at_phase w1 = Recovering /\
  (forall k,
      (forall j, (j < k)%nat -> seekAnswer env (seeks w + j) (self w) <> None) ->
      let wk := fst (run env k w1) in
      let next := step env wk in
      at_phase wk = Recovering /\
      opened (snd (run env k w1)) = repeat (readerConfig (self w)) k /\
      slept (snd (run env k w1)) = repeat (time.Second * 3) k /\
      (forall e',
          seekAnswer env (seeks w + k) (self w) = Some e' ->
          snd next =
            connectTrace (self w)
            ++ [EvLogError (log (self w)) "recover failed" (KafkaErr e');
                EvSleep (time.Second * 3)] /\
          at_phase (fst next) = Recovering) /\
      (seekAnswer env (seeks w + k) (self w) = None ->
          snd next = connectTrace (self w) /\
          at_phase (fst next) = Consuming /\
          reader (self (fst next)) =
            Some (kafka.NewReader (readerConfig (self w)))) /\
      (at_phase (fst next) = Consuming ->
          seekAnswer env (seeks w + k) (self w) = None)) /\
  (forall n, running (fst (run env n w))).
Proof.
  intros Hp Hr Hf. cbv zeta.
  rewrite (step_fetch_failed w r msg e Hp Hr Hf). cbn [fst snd].
  split; [reflexivity|]. split; [reflexivity|]. split; [reflexivity|].
  split; [reflexivity|]. split.
  - intros k Hfail.
    match goal with
    | |- context [run env k ?w1] =>
        pose proof (run_retries k w1 eq_refl Hfail) as HR;
        set (res := run env k w1) in *
    end.
    cbv zeta in HR. cbn [self seeks maxOffset fetches] in HR.
    destruct HR as (I1 & I2 & I3 & I4 & I5 & I6 & I7 & I8 & I9).
    assert (Hself : connect (self (fst res)) = connect (self w))
      by (rewrite I5; destruct k; reflexivity).
    assert (Hcfg : readerConfig (self (fst res)) = readerConfig (self w))
      by (rewrite I5; destruct k; reflexivity).
    assert (Hlog : log (self (fst res)) = log (self w))
      by (rewrite I5; destruct k; reflexivity).
    rewrite (step_recovering (fst res) I1).
    unfold seekAnswer in *. rewrite I4, Hcfg, Hself, Hlog.
    unfold connectTrace. rewrite Hcfg.
    split; [exact I1|]. split; [exact I6|]. split; [exact I8|].
    destruct (env_SetOffset env (seeks w + k)
                (kafka.NewReader (readerConfig (self w))) kafka.LastOffset)
      as [e0|]; cbn [fst snd at_phase self].
    + split; [intros e' He'; inversion He'; subst; split; reflexivity|].
      split; [discriminate|discriminate].
    + split; [discriminate|].
      split; [intros _; repeat split; reflexivity|reflexivity].
  - intros n. apply run_running; [left; exact Hp|congruence].
Qed.

(** C2. A fetch fails, [k] reconnection attempts fail and the next one
    succeeds.  Every connection opened on the way, the final one included,
    is seeked to [kafka.LastOffset] (-1, the newest offset), whatever the
    tracked maximum is.  When the worker is back at fetching, on the
    replacement connection, its tracked maximum is the one it had before
    the failure, nothing has been delivered meanwhile, and whatever it
    delivers from then on has an offset strictly above that maximum. *)
Theorem recover_seeks_newest_keeps_maxOffset
    (w : Worker) (r : kafka.Reader) (msg : kafka.Message)
    (e : kafka.Error) (k : nat) :
  at_phase w = Consuming -> reader (self w) = Some r ->
  env_FetchMessage env (fetches w) r = (msg, Some e) ->
  (forall j, (j < k)%nat -> seekAnswer env (seeks w + j) (self w) <> None) ->
  seekAnswer env (seeks w + k) (self w) = None ->
  let res := run env (1 + (k + 1)) w in
  kafka.LastOffset = -1 /\
  at_phase (fst res) = Consuming /\
  reader (self (fst res)) = Some (kafka.NewReader (readerConfig (self w))) /\
  seekTargets (snd res) = repeat kafka.LastOffset (S k) /\
  delivered (snd res) = [] /\
  maxOffset (fst res) = maxOffset w /\
  (forall m,
      Forall (fun o => maxOffset w < o)
        (deliveredOffsets (snd (run env m (fst res))))).
Proof.
  intros Hp Hr Hf Hfail Hok. cbv zeta.
  cbn [Nat.add]. rewrite run_S, run_add.
  rewrite (step_fetch_failed w r msg e Hp Hr Hf). cbn [fst snd].
  match goal with
  | |- context [run env k ?w1] =>
      pose proof (run_retries k w1 eq_refl Hfail) as HR;
      set (res := run env k w1) in *
  end.
  cbv zeta in HR. cbn [self seeks maxOffset fetches] in HR.
  destruct HR as (I1 & I2 & I3 & I4 & I5 & I6 & I7 & I8 & I9).
  assert (Hcfg : readerConfig (self (fst res)) = readerConfig (self w))
    by (rewrite I5; destruct k; reflexivity).
  change (run env 1 (fst res))
    with (let '(w1, tr1) := step env (fst res) in (w1, tr1 ++ [])).
  rewrite (step_recovering (fst res) I1).
  unfold seekAnswer in *. rewrite I4, Hcfg, Hok. cbn [fst snd].
  assert (Hmax : maxOffset
                   {| self := connect (self (fst res));
                      maxOffset := maxOffset (fst res);
                      at_phase := Consuming; fetches := fetches (fst res);
                      seeks := S (seeks w + k) |} = maxOffset w)
    by exact I2.
  split; [reflexivity|]. split; [reflexivity|].
  split; [cbn; rewrite Hcfg; reflexivity|].
  split.
  { rewrite !seekTargets_app, I7.
    change (repeat kafka.LastOffset (S k))
      with (kafka.LastOffset :: repeat kafka.LastOffset k).
    rewrite repeat_cons. reflexivity. }
  split.
  { rewrite !delivered_app, I9. reflexivity. }
  split; [exact Hmax|].
  intros m.
  match goal with
  | |- context [run env m ?w2] =>
      destruct (run_delivery m w2) as (_ & HF & _)
  end.
  rewrite Hmax in HF.
  eapply Forall_impl; [|exact HF]. cbn. intros a Ha; lia.
Qed.

End WorkerLoop.

(** ** Instances *)

Example Start_orders_5_6_6_7 :
  deliveredOffsets
    (snd (run (envScript [fetchedAt 5; fetchedAt 6; fetchedAt 6; fetchedAt 7] [])
            4 (Start_init workerSample))) = [5; 6; 7].
Proof. reflexivity. Qed.

Example Start_offsets_0_1_1_2 :
  deliveredOffsets
    (snd (run (envScript [fetchedAt 0; fetchedAt 1; fetchedAt 1; fetchedAt 2] [])
            4 (Start_init workerSample))) = [1; 2].
Proof. reflexivity. Qed.

Example workerAt5_reached :
  fst (run envOutage 1 (Start_init workerSample)) = workerAt5.
Proof. reflexivity. Qed.

Example Start_outage_trace :
  deliveredOffsets (snd (run envOutage 6 (Start_init workerSample))) = [5; 9].
Proof. reflexivity. Qed.

Lemma Start_delivers_increasing_witness :
  snd (step (envScript [fetchedAt 5; fetchedAt 5] [])
         (fst (step (envScript [fetchedAt 5; fetchedAt 5] [])
                 (Start_init workerSample)))) = [].
Proof.
  pose proof (proj2 (proj2
    (Start_delivers_increasing (envScript [fetchedAt 5; fetchedAt 5] [])
       workerSample 0))) as H.
  specialize (H (fst (step (envScript [fetchedAt 5; fetchedAt 5] [])
                        (Start_init workerSample)))
                (kafka.NewReader (readerConfig workerSample)) (msgAt 5)
                eq_refl eq_refl eq_refl).
  apply H. vm_compute. discriminate.
Defined.

Lemma recover_seeks_newest_keeps_maxOffset_witness :
  at_phase (fst (run envOutage (1 + (1 + 1)) workerAt5)) = Consuming /\
  maxOffset (fst (run envOutage (1 + (1 + 1)) workerAt5)) = 5 /\
  seekTargets (snd (run envOutage (1 + (1 + 1)) workerAt5)) = [-1; -1].
Proof.
  assert (Hfail : forall j, (j < 1)%nat ->
            seekAnswer envOutage (seeks workerAt5 + j) (self workerAt5) <> None).
  { intros j Hj. assert (j = 0)%nat as -> by lia. vm_compute. discriminate. }
  pose proof (recover_seeks_newest_keeps_maxOffset envOutage workerAt5
                (kafka.NewReader (readerConfig workerSample)) noMessage
                (kafka.ClientError "connection reset") 1
                eq_refl eq_refl eq_refl Hfail eq_refl) as H.
  cbv zeta in H. destruct H as (_ & H1 & _ & H2 & _ & H3 & _).
  split; [exact H1|]. split; [exact H3|exact H2].
Defined.

Lemma recover_retries_until_connected_witness :
  at_phase (fst (step envOutage workerAt5)) = Recovering /\
  running (fst (run envOutage 40 workerAt5)).
Proof.
  pose proof (recover_retries_until_connected envOutage workerAt5
                (kafka.NewReader (readerConfig workerSample)) noMessage
                (kafka.ClientError "connection reset")
                eq_refl eq_refl eq_refl) as H.
  cbv zeta in H. destruct H as (_ & _ & _ & H1 & _ & H2).
  split; [exact H1|apply H2].
Defined.

Lemma LookupPartitions_failover_witness :
  let res := kafkalib.LookupPartitions envFailover pkgLog
               ["a:9092"; "b:9092"; "c:9092"]%string "orders" in
  fst res = ([partitionOf "orders" 0; partitionOf "orders" 1], None) /\
  queried (snd res) =
    [queryFor "orders" "a:9092"; queryFor "orders" "b:9092"].
Proof.
  refine (proj1 (proj2 (proj2 (LookupPartitions_failover envFailover pkgLog "orders")))
            ["a:9092"%string] "b:9092"%string ["c:9092"%string]
            [partitionOf "orders" 0; partitionOf "orders" 1] _ _).
  - intros i addr Hi. destruct i as [|i].
    + inversion Hi; subst. vm_compute. discriminate.
    + destruct i; discriminate Hi.
  - reflexivity.
Defined.

Lemma CreateReader_mutates_cfg_witness :
  snd (returned envDown (cfgSample (-5) (-1) 0)) = Some ErrNonePartionFound /\
  MinBytes (cfgAfter envDown (cfgSample (-5) (-1) 0)) = 512 /\
  cfgAfter envDown (cfgSample (-5) (-1) 0) =
    cfgAfter envDown (set_MaxBytes 0 (cfgSample (-5) (-1) 0)).
Proof.
  assert (Hb : Brokers (cfgSample (-5) (-1) 0) <> []) by discriminate.
  assert (Ht : Topic (cfgSample (-5) (-1) 0) <> EmptyString) by discriminate.
  assert (Hh : Handler (cfgSample (-5) (-1) 0) <> None) by discriminate.
  pose proof (CreateReader_mutates_cfg envDown (cfgSample (-5) (-1) 0)
                Hb Ht Hh) as H.
  cbv zeta in H. destruct H as (_ & _ & _ & H1 & _ & _ & H2).
  split; [reflexivity|]. split.
  - apply H1. cbn. lia.
  - apply H2. cbn. lia.
Defined.

(** * Further properties *)

(** ** What the constructor does to the outside *)

Lemma constructionEvent_lookup env log topic brokers :
  forall calls,
    Forall constructionEvent
      (snd (kafkalib.LookupPartitions_from env calls log brokers topic)).
Proof.
  induction brokers as [|addr rest IH]; intros calls; [constructor|].
  rewrite LookupPartitions_from_cons.
  destruct (env_LookupPartitions env calls (3 * time.Second) "tcp" addr topic)
    as [parts [e|]].
  - specialize (IH (S calls)).
    destruct (kafkalib.LookupPartitions_from env (S calls) log rest topic)
      as [res tr'].
    cbn [snd] in *. repeat (apply Forall_app; split); try exact IH;
      repeat constructor.
  - repeat constructor.
Qed.

Lemma constructionEvent_workers env rd todo :
  forall acc,
    Forall constructionEvent (snd (newPartitionReaders env rd todo acc)) /\
    List.length (seekTargets (snd (newPartitionReaders env rd todo acc))) =
    List.length (opened (snd (newPartitionReaders env rd todo acc))).
Proof.
  induction todo as [|p rest IH]; intros acc; [split; [constructor|reflexivity]|].
  rewrite newPartitionReaders_cons. cbv zeta.
  destruct (initialSeek env rd (List.length acc) p) as [e|].
  - cbn [snd]. split; [repeat constructor|reflexivity].
  - specialize (IH (acc ++ [workerFor rd p])).
    destruct (newPartitionReaders env rd rest (acc ++ [workerFor rd p]))
      as [res tr'].
    cbn [snd] in *. destruct IH as [IH1 IH2]. split.
    + apply Forall_app; split; [repeat constructor|exact IH1].
    + rewrite seekTargets_app, opened_app, !length_app, IH2. reflexivity.
Qed.

Lemma seekTargets_lookup env log topic brokers :
  forall calls,
    seekTargets
      (snd (kafkalib.LookupPartitions_from env calls log brokers topic)) = [].
Proof.
  induction brokers as [|addr rest IH]; intros calls; [reflexivity|].
  rewrite LookupPartitions_from_cons.
  destruct (env_LookupPartitions env calls (3 * time.Second) "tcp" addr topic)
    as [parts [e|]]; [|reflexivity].
  specialize (IH (S calls)).
  destruct (kafkalib.LookupPartitions_from env (S calls) log rest topic)
    as [res tr'].
  cbn [snd] in *. rewrite !seekTargets_app, IH. reflexivity.
Qed.

Lemma construct_events env h cfg :
  Forall constructionEvent (snd (construct env h cfg)) /\
  List.length (seekTargets (snd (construct env h cfg))) =
  List.length (opened (snd (construct env h cfg))).
Proof.
  unfold construct, kafkalib.LookupPartitions.
  pose proof (constructionEvent_lookup env (loggerFor cfg) (Topic cfg)
                (Brokers cfg) 0%nat) as HL.
  pose proof (seekTargets_lookup env (loggerFor cfg) (Topic cfg)
                (Brokers cfg) 0%nat) as HS.
  pose proof (opened_lookup env (loggerFor cfg) (Topic cfg)
                (Brokers cfg) 0%nat) as HO.
  destruct (kafkalib.LookupPartitions_from env 0 (loggerFor cfg) (Brokers cfg)
              (Topic cfg)) as [[parts [e|]] tr]; cbn [fst snd] in *.
  - split.
    + apply Forall_app; split; [exact HL|repeat constructor].
    + rewrite seekTargets_app, opened_app, HS, HO. reflexivity.
  - destruct (constructionEvent_workers env (mkShared h cfg parts) parts [])
      as [HW HN].
    destruct (newPartitionReaders env (mkShared h cfg parts) parts [])
      as [[[rs|] [e|]] tr']; cbn [fst snd] in *;
      (split; [apply Forall_app; split; assumption
              |rewrite seekTargets_app, opened_app, !length_app, HS, HO, HN;
               reflexivity]).
Qed.

Lemma CreateReader_cases env cfg :
  (exists e, CreateReader env cfg = (cfg, (None, Some e), []) /\
             isConfigError (Some e) = true /\
             (Brokers cfg = [] \/ Topic cfg = EmptyString \/ Handler cfg = None)) \/
  (exists h, Brokers cfg <> [] /\ Topic cfg <> EmptyString /\
             Handler cfg = Some h /\
             CreateReader env cfg = construct env h (applyDefaults cfg)).
Proof.
  destruct (Brokers cfg) as [|b bs] eqn:Eb.
  { left. exists ErrNoBrokers. unfold CreateReader. rewrite Eb. auto. }
  destruct (String.eqb_spec (Topic cfg) EmptyString) as [Et|Et].
  { left. exists ErrNoTopic. unfold CreateReader. rewrite Eb, Et. auto. }
  destruct (Handler cfg) as [h|] eqn:Eh.
  - right. exists h.
    assert (Hb : Brokers cfg <> []) by (rewrite Eb; discriminate).
    split; [discriminate|]. split; [exact Et|]. split; [reflexivity|].
    apply CreateReader_valid; assumption.
  - left. exists ErrNoHandler. unfold CreateReader. rewrite Eb, Eh. cbn.
    destruct (String.eqb_spec (Topic cfg) EmptyString); [contradiction|]. auto.
Qed.

Lemma constructionEvent_silent tr :
  Forall constructionEvent tr ->
  closed tr = [] /\ slept tr = [] /\ delivered tr = [] /\
  Forall (fun o => o = kafka.LastOffset) (seekTargets tr).
Proof.
  induction 1 as [|e tr He _ IH]; [repeat split; constructor|].
  destruct IH as (I1 & I2 & I3 & I4).
  destruct e; cbn in He; try contradiction; cbn;
    repeat split; auto.
Qed.

(** X1. Construction only looks up partitions, logs, opens connections and
    seeks them to the newest offset: it never closes a connection (also
    not those of the workers built before a failing one), never sleeps,
    never calls the handler, and every connection it opens is seeked
    exactly once. *)
Theorem CreateReader_outward_actions (env : Env) (cfg : Config) :
  closed (traceOf env cfg) = [] /\
  slept (traceOf env cfg) = [] /\
  delivered (traceOf env cfg) = [] /\
  Forall (fun o => o = kafka.LastOffset) (seekTargets (traceOf env cfg)) /\
  List.length (seekTargets (traceOf env cfg)) =
  List.length (opened (traceOf env cfg)).
Proof.
  unfold traceOf.
  destruct (CreateReader_cases env cfg) as [(e & -> & _)|(h & _ & _ & _ & ->)].
  - cbn. repeat split; constructor.
  - destruct (construct_events env h (applyDefaults cfg)) as [HE HN].
    destruct (constructionEvent_silent _ HE) as (H1 & H2 & H3 & H4).
    repeat split; assumption.
Qed.

(** X2. A configuration that fails validation has no effect at all: the
    caller's [Config] is untouched, no broker is contacted, nothing is
    logged, and the reader returned is nil. *)
Theorem CreateReader_invalid_no_effect (env : Env) (cfg : Config) :
  Brokers cfg = [] \/ Topic cfg = EmptyString \/ Handler cfg = None ->
  cfgAfter env cfg = cfg /\
  traceOf env cfg = [] /\
  fst (returned env cfg) = None /\
  isConfigError (snd (returned env cfg)) = true.
Proof.
  intros Hbad. unfold cfgAfter, traceOf, returned.
  destruct (CreateReader_cases env cfg) as [(e & -> & He & _)|(h & Hb & Ht & Hh & _)].
  - cbn [fst snd]. repeat split; auto.
  - destruct Hbad as [H|[H|H]]; congruence.
Qed.

Lemma CreateReader_invalid_no_effect_witness :
  traceOf (envHealthy [partitionOf "orders" 0])
    {| Name := "n"; Brokers := ["k0:9092"%string]; Topic := EmptyString;
       MinBytes := -1; MaxBytes := 0; ReadBackoffMin := 0;
       Handler := Some 7%nat |} = [].
Proof.
  apply (CreateReader_invalid_no_effect
           (envHealthy [partitionOf "orders" 0])
           {| Name := "n"; Brokers := ["k0:9092"%string]; Topic := EmptyString;
              MinBytes := -1; MaxBytes := 0; ReadBackoffMin := 0;
              Handler := Some 7%nat |}).
  right; left; reflexivity.
Defined.

Lemma newPartitionReaders_opened env rd todo :
  forall acc,
    exists k,
      opened (snd (newPartitionReaders env rd todo acc)) =
      map (fun p => readerConfig (newWorker rd p)) (firstn k todo).
Proof.
  induction todo as [|p rest IH]; intros acc; [exists 0%nat; reflexivity|].
  rewrite newPartitionReaders_cons. cbv zeta.
  destruct (initialSeek env rd (List.length acc) p) as [e|].
  - exists 1%nat. destruct rest; reflexivity.
  - destruct (IH (acc ++ [workerFor rd p])) as [k Hk].
    destruct (newPartitionReaders env rd rest (acc ++ [workerFor rd p]))
      as [res tr'].
    cbn [snd] in *. exists (S k). rewrite opened_app, Hk. reflexivity.
Qed.

Lemma construct_opened env h cfg :
  opened (snd (construct env h cfg)) =
  match fst (kafkalib.LookupPartitions env (loggerFor cfg) (Brokers cfg)
               (Topic cfg)) with
  | (parts, None) =>
      opened (snd (newPartitionReaders env (mkShared h cfg parts) parts []))
  | (_, Some _) => []
  end.
Proof.
  unfold construct, kafkalib.LookupPartitions.
  pose proof (opened_lookup env (loggerFor cfg) (Topic cfg) (Brokers cfg) 0%nat)
    as HO.
  destruct (kafkalib.LookupPartitions_from env 0 (loggerFor cfg) (Brokers cfg)
              (Topic cfg)) as [[parts [e|]] tr]; cbn [fst snd] in *.
  - rewrite opened_app, HO. reflexivity.
  - destruct (newPartitionReaders env (mkShared h cfg parts) parts [])
      as [[[rs|] [e|]] tr']; cbn [fst snd];
      rewrite opened_app, HO; reflexivity.
Qed.

(** X3. Every connection the constructor opens is configured with the
    caller's brokers and topic and with the thresholds and backoff as the
    defaults left them, and the connections are opened for the partitions
    in the order the lookup returned them, without gaps: the partition ids
    of the opened connections are an initial segment of the looked-up
    ones. *)
Theorem CreateReader_opened_configs (env : Env) (cfg : Config) :
  Forall (fun c =>
            kafka.RCBrokers c = Brokers cfg /\
            kafka.RCTopic c = Topic cfg /\
            kafka.RCMinBytes c = MinBytes (applyDefaults cfg) /\
            kafka.RCMaxBytes c = MaxBytes (applyDefaults cfg) /\
            kafka.RCReadBackoffMin c = ReadBackoffMin (applyDefaults cfg))
    (opened (traceOf env cfg)) /\
  exists k,
    map kafka.RCPartition (opened (traceOf env cfg)) =
    firstn k
      (map kafka.ID
         (fst (fst (kafkalib.LookupPartitions env (loggerFor cfg)
                      (Brokers cfg) (Topic cfg))))).
Proof.
  unfold traceOf.
  destruct (CreateReader_cases env cfg) as [(e & -> & _)|(h & _ & _ & _ & ->)].
  { cbn. split; [constructor|]. exists 0%nat. reflexivity. }
  rewrite construct_opened, loggerFor_applyDefaults.
  destruct (applyDefaults_frame cfg) as (_ & Hb & Ht & _).
  rewrite Hb, Ht.
  destruct (fst (kafkalib.LookupPartitions env (loggerFor cfg) (Brokers cfg)
                   (Topic cfg))) as [parts [e|]]; cbn [fst].
  { split; [constructor|]. exists 0%nat. reflexivity. }
  destruct (newPartitionReaders_opened env
              (mkShared h (applyDefaults cfg) parts) parts []) as [k ->].
  split.
  - apply Forall_forall. intros c Hin. apply in_map_iff in Hin.
    destruct Hin as (p & <- & _). cbn. rewrite Hb, Ht. repeat split.
  - exists k. rewrite map_map. cbn. rewrite <- firstn_map. reflexivity.
Qed.

(** ** Calling the constructor again *)

Lemma GoInt_add_64 m :
  1 <= m <= GoInt.max_int ->
  (m <= GoInt.max_int - 64 /\ GoInt.add m 64 = m + 64) \/
  (GoInt.max_int - 64 < m /\ GoInt.add m 64 = m + 64 - GoInt.modulus).
Proof.
  unfold GoInt.add, GoInt.wrap, GoInt.max_int, GoInt.min_int, GoInt.modulus,
    GoInt.bits.
  change (2 ^ (64 - 1)) with 9223372036854775808.
  change (2 ^ 64) with 18446744073709551616.
  intros Hm.
  destruct (Z_le_gt_dec m (9223372036854775808 - 1 - 64)) as [Hle|Hgt].
  - left. split; [lia|]. Z.div_mod_to_equations. lia.
  - right. split; [lia|]. Z.div_mod_to_equations. lia.
Qed.

Lemma applyDefaults_idempotent cfg :
  MinBytes cfg <= GoInt.max_int ->
  applyDefaults (applyDefaults cfg) = applyDefaults cfg.
Proof.
  intros Hr.
  assert (H512 : GoInt.add 512 64 = 576) by reflexivity.
  assert (Hadd : 0 < MinBytes cfg ->
                 (MinBytes cfg <= GoInt.max_int - 64 /\
                  GoInt.add (MinBytes cfg) 64 = MinBytes cfg + 64) \/
                 (GoInt.max_int - 64 < MinBytes cfg /\
                  GoInt.add (MinBytes cfg) 64 =
                  MinBytes cfg + 64 - GoInt.modulus)).
  { intros Hp. apply GoInt_add_64. lia. }
  unfold GoInt.max_int, GoInt.modulus, GoInt.bits in *.
  change (2 ^ (64 - 1)) with 9223372036854775808 in *.
  change (2 ^ 64) with 18446744073709551616 in *.
  unfold_defaults. unfold MINBYTES, MAXBYTES, READBACKOFFMIN in *.
  split_ifs; bool_to_Z; rewrite ?H512 in *; try reflexivity;
    try (exfalso; lia);
    try (exfalso; destruct Hadd as [[? ?]|[? ?]]; lia).
Qed.

(** X4. The defaults are idempotent: a [Config] that one call of
    [CreateReader] has left behind is not changed by a further call,
    whatever the brokers answer either time (the supplied minimum being
    an [int], at most [GoInt.max_int]). *)
Theorem CreateReader_second_call_keeps_cfg (env1 env2 : Env) (cfg : Config) :
  MinBytes cfg <= GoInt.max_int ->
  cfgAfter env2 (cfgAfter env1 cfg) = cfgAfter env1 cfg.
Proof.
  intros Hr. unfold cfgAfter.
  destruct (CreateReader_cases env1 cfg)
    as [(e & H1 & _ & Hbad)|(h & Hb & Ht & Hh & H1)].
  - rewrite H1. cbn [fst].
    destruct (CreateReader_cases env2 cfg)
      as [(e2 & H2 & _)|(h & Hb & Ht & Hh & _)].
    + rewrite H2. reflexivity.
    + destruct Hbad as [H|[H|H]]; congruence.
  - rewrite H1, construct_cfg.
    destruct (applyDefaults_frame cfg) as (_ & Fb & Ft & Fh).
    rewrite (CreateReader_valid env2 (applyDefaults cfg) h), construct_cfg;
      try congruence.
    apply applyDefaults_idempotent. exact Hr.
Qed.

Lemma CreateReader_second_call_keeps_cfg_witness :
  cfgAfter envDown (cfgAfter (envHealthy []) (cfgSample 9000000 100 5)) =
  cfgAfter (envHealthy []) (cfgSample 9000000 100 5).
Proof.
  apply (CreateReader_second_call_keeps_cfg (envHealthy []) envDown
           (cfgSample 9000000 100 5)).
  vm_compute. discriminate.
Defined.

(** ** A constructed reader, started and closed *)

Lemma newPartitionReaders_some env rd todo :
  forall acc rs err,
    fst (newPartitionReaders env rd todo acc) = (Some rs, err) ->
    rs = acc ++ map (workerFor rd) todo /\ err = None.
Proof.
  induction todo as [|p rest IH]; intros acc rs err.
  - cbn. intros H; inversion H; subst. rewrite app_nil_r. split; reflexivity.
  - rewrite newPartitionReaders_cons. cbv zeta.
    destruct (initialSeek env rd (List.length acc) p) as [e|];
      [cbn; discriminate|].
    specialize (IH (acc ++ [workerFor rd p]) rs err).
    destruct (newPartitionReaders env rd rest (acc ++ [workerFor rd p]))
      as [res tr'].
    cbn [fst] in *. intros H. destruct (IH H) as [-> ->].
    rewrite <- app_assoc. split; reflexivity.
Qed.

Lemma construct_readers env h cfg r :
  snd (fst (construct env h cfg)) = (Some r, None) ->
  fst (kafkalib.LookupPartitions env (loggerFor cfg) (Brokers cfg) (Topic cfg))
    = (partitions (shared r), None) /\
  shared r = mkShared h cfg (partitions (shared r)) /\
  readers r = map (workerFor (shared r)) (partitions (shared r)) /\
  status r = false /\ closing r = false.
Proof.
  unfold construct.
  destruct (kafkalib.LookupPartitions env (loggerFor cfg) (Brokers cfg) (Topic cfg))
    as [[parts [e|]] tr]; cbn [fst snd]; [discriminate|].
  pose proof (newPartitionReaders_some env (mkShared h cfg parts) parts []) as HS.
  destruct (newPartitionReaders env (mkShared h cfg parts) parts [])
    as [[[rs|] [e|]] tr']; cbn [fst snd] in *; intros H; inversion H; subst.
  destruct (HS rs None eq_refl) as [-> _]. cbn. repeat split.
Qed.

(** X5. Whenever [CreateReader] succeeds, the reader holds exactly one
    connected worker per partition the lookup returned, in that order, is
    neither started nor closing, and [Start] launches exactly one fetch
    loop per partition, in order, each beginning at [maxOffset] 0 on its
    worker's connection, and marks the reader started. *)
Theorem CreateReader_then_Start (env : Env) (cfg : Config) (r : Reader) :
  returned env cfg = (Some r, None) ->
  let parts := partitions (shared r) in
  fst (kafkalib.LookupPartitions env (loggerFor cfg) (Brokers cfg) (Topic cfg))
    = (parts, None) /\
  readers r = map (workerFor (shared r)) parts /\
  status r = false /\ closing r = false /\
  status (fst (Reader_Start r)) = true /\
  readers (fst (Reader_Start r)) = readers r /\
  List.length (snd (Reader_Start r)) = List.length parts /\
  map (fun w => partition (self w)) (snd (Reader_Start r)) = parts /\
  Forall (fun w => maxOffset w = 0 /\ at_phase w = Consuming /\
                   reader (self w) <> None /\ parent (self w) = shared r)
    (snd (Reader_Start r)).
Proof.
  intros H. unfold returned in H.
  destruct (CreateReader_cases env cfg) as [(e & E & _)|(h & Hb & Ht & Hh & E)];
    rewrite E in H; [discriminate|].
  destruct (construct_readers env h (applyDefaults cfg) r H)
    as (HL & HS & HR & H1 & H2).
  rewrite loggerFor_applyDefaults in HL.
  destruct (applyDefaults_frame cfg) as (_ & Fb & Ft & _).
  rewrite Fb, Ft in HL. cbv zeta.
  split; [exact HL|]. split; [exact HR|]. split; [exact H1|].
  split; [exact H2|]. cbn [Reader_Start fst snd status readers].
  split; [reflexivity|]. split; [reflexivity|].
  rewrite HR. split; [rewrite !length_map; reflexivity|]. split.
  - rewrite !map_map. cbn. apply map_id.
  - apply Forall_forall. intros w Hin. rewrite map_map in Hin.
    apply in_map_iff in Hin. destruct Hin as (p & <- & _). cbn.
    repeat split. discriminate.
Qed.

Lemma CreateReader_then_Start_witness :
  exists r,
    returned (envHealthy [partitionOf "orders" 0; partitionOf "orders" 1;
                          partitionOf "orders" 2]) (cfgSample 0 0 0)
      = (Some r, None) /\
    List.length (snd (Reader_Start r)) = 3%nat.
Proof.
  eexists. split; [vm_compute; reflexivity|].
  refine (proj1 (proj2 (proj2 (proj2 (proj2 (proj2 (proj2
    (CreateReader_then_Start
       (envHealthy [partitionOf "orders" 0; partitionOf "orders" 1;
                    partitionOf "orders" 2]) (cfgSample 0 0 0) _ _)))))))).
  vm_compute. reflexivity.
Defined.

(** X6. [Close] only raises the [closing] flag: [Stop] is empty, so the
    workers, their connections and the [status] flag are as before, a
    closed reader can be started like any other, and [Start] itself checks
    neither flag: a second [Start] launches a second loop per worker. *)
Theorem Reader_Close_stops_nothing (p : Reader) :
  closing (Reader_Close p) = true /\
  readers (Reader_Close p) = readers p /\
  status (Reader_Close p) = status p /\
  shared (Reader_Close p) = shared p /\
  snd (Reader_Start (Reader_Close p)) = snd (Reader_Start p) /\
  snd (Reader_Start (fst (Reader_Start p))) = snd (Reader_Start p) /\
  closing (fst (Reader_Start (Reader_Close p))) = true.
Proof.
  assert (HR : readers (Reader_Close p) = readers p).
  { cbn. unfold PartitionReader_Stop. apply map_id. }
  repeat split; try reflexivity; try exact HR.
  cbn [Reader_Start snd]. rewrite HR. reflexivity.
Qed.

(** ** More on the worker loop *)

Section WorkerLoopFacts.

Variable env : Env.

Lemma last_cons_default (o : Z) (l : list Z) (d : Z) :
  last (o :: l) d = last l o.
Proof.
  revert o d. induction l as [|a l IH]; intros o d; [reflexivity|].
  change (last (o :: a :: l) d) with (last (a :: l) d).
  rewrite (IH a d), (IH a o). reflexivity.
Qed.

(** X7. The tracked maximum is the offset of the message delivered last:
    after any number of interactions, [maxOffset] equals the last
    delivered offset of the run, or its starting value when the run
    delivered nothing.  In particular it never decreases. *)
Theorem maxOffset_is_last_delivered (w : Worker) (n : nat) :
  maxOffset (fst (run env n w)) =
    last (deliveredOffsets (snd (run env n w))) (maxOffset w) /\
  maxOffset w <= maxOffset (fst (run env n w)).
Proof.
  split; [|apply run_delivery].
  revert w. induction n as [|n IH]; intros w; [reflexivity|].
  rewrite run_S. cbn [fst snd]. rewrite deliveredOffsets_app, IH.
  destruct (step_delivery env w) as [[Hd Hk]|(o & Hd & _ & Hk)];
    rewrite Hd, Hk; cbn [app]; [reflexivity|].
  symmetry. apply last_cons_default.
Qed.

Lemma records_app_nil m l : records m ([] ++ l) = records m l.
Proof. reflexivity. Qed.

Lemma step_records w :
  delivered (snd (step env w)) =
    records (maxOffset w) (received (fetchAnswer env w)) /\
  maxOffset (fst (step env w)) =
    last (map kafka.Offset
            (records (maxOffset w) (received (fetchAnswer env w))))
      (maxOffset w).
Proof.
  unfold step, fetchAnswer.
  destruct (at_phase w) eqn:Hp.
  - destruct (reader (self w)) as [r|] eqn:Hr; [|split; reflexivity].
    destruct (env_FetchMessage env (fetches w) r) as [msg [e|]].
    + unfold recover_close. rewrite Hr. split; reflexivity.
    + cbn [received flat_map snd fst app records].
      destruct (kafka.Offset msg <=? maxOffset w); split; reflexivity.
  - unfold createReader.
    destruct (env_SetOffset env (seeks w) _ kafka.LastOffset);
      split; reflexivity.
  - split; reflexivity.
Qed.

Lemma received_app a b : received (a ++ b) = received a ++ received b.
Proof. unfold received. apply flat_map_app. Qed.

Lemma records_app m l1 l2 :
  records m (l1 ++ l2) =
  records m l1 ++ records (last (map kafka.Offset (records m l1)) m) l2.
Proof.
  revert m. induction l1 as [|x l1 IH]; intros m; [reflexivity|].
  cbn [app records].
  destruct (kafka.Offset x <=? m); [apply IH|].
  cbn [app map]. rewrite IH, last_cons_default. reflexivity.
Qed.

(** X8. What a worker delivers is exactly what the duplicate filter keeps
    of what it receives: the messages handed to the handler during any
    run are the messages of the successful fetches of that run whose
    offset is above every offset delivered before (and above the starting
    maximum), in fetch order; failed fetches and reconnections neither add
    nor remove a delivery. *)
Theorem delivered_is_records_of_received (w : Worker) (n : nat) :
  delivered (snd (run env n w)) =
  records (maxOffset w) (received (fetchedBy env n w)).
Proof.
  revert w. induction n as [|n IH]; intros w; [reflexivity|].
  rewrite run_S. cbn [fst snd fetchedBy].
  rewrite delivered_app, received_app, records_app, IH.
  destruct (step_records w) as [-> <-]. reflexivity.
Qed.

Lemma step_frame w :
  parent (self (fst (step env w))) = parent (self w) /\
  partition (self (fst (step env w))) = partition (self w) /\
  log (self (fst (step env w))) = log (self w) /\
  Forall (fun c => c = readerConfig (self w)) (opened (snd (step env w))) /\
  Forall (fun o => o = kafka.LastOffset) (seekTargets (snd (step env w))) /\
  Forall (fun d => d = time.Millisecond * 200 \/ d = time.Second * 3)
    (slept (snd (step env w))) /\
  Forall (fun c => c = (handleEvent (parent (self w)), log (self w)))
    (handlerCalls (snd (step env w))).
Proof.
  unfold step.
  destruct (at_phase w) eqn:Hp.
  - destruct (reader (self w)) as [r|] eqn:Hr;
      [|repeat split; constructor].
    destruct (env_FetchMessage env (fetches w) r) as [msg [e|]].
    + unfold recover_close. rewrite Hr. cbn.
      repeat split;
        repeat first [reflexivity | left; reflexivity | constructor].
    + destruct (kafka.Offset msg <=? maxOffset w); cbn;
        repeat split; repeat first [reflexivity | constructor].
  - unfold createReader.
    destruct (env_SetOffset env (seeks w) _ kafka.LastOffset); cbn;
      repeat split;
      repeat first [reflexivity | right; reflexivity | constructor].
  - repeat split; constructor.
Qed.

Lemma handlerCalls_app tr1 tr2 :
  handlerCalls (tr1 ++ tr2) = handlerCalls tr1 ++ handlerCalls tr2.
Proof. unfold handlerCalls. apply flat_map_app. Qed.

(** X9. A worker never changes what it was built from: its parent, its
    partition and its logger stay the same for ever; every connection it
    opens has one and the same configuration; it seeks nowhere but to the
    newest offset; it sleeps 200 ms or 3 s and nothing else; and every
    message goes to the parent's handler with the worker's logger. *)
Theorem Start_frame (w : Worker) (n : nat) :
  let w' := fst (run env n w) in
  let tr := snd (run env n w) in
  parent (self w') = parent (self w) /\
  partition (self w') = partition (self w) /\
  log (self w') = log (self w) /\
  Forall (fun c => c = readerConfig (self w)) (opened tr) /\
  Forall (fun o => o = kafka.LastOffset) (seekTargets tr) /\
  Forall (fun d => d = time.Millisecond * 200 \/ d = time.Second * 3)
    (slept tr) /\
  Forall (fun c => c = (handleEvent (parent (self w)), log (self w)))
    (handlerCalls tr).
Proof.
  cbv zeta. revert w. induction n as [|n IH]; intros w.
  - cbn. repeat split; constructor.
  - rewrite run_S. cbn [fst snd].
    destruct (step_frame w) as (S1 & S2 & S3 & S4 & S5 & S6 & S7).
    destruct (IH (fst (step env w))) as (I1 & I2 & I3 & I4 & I5 & I6 & I7).
    assert (Hcfg : readerConfig (self (fst (step env w))) =
                   readerConfig (self w))
      by (unfold readerConfig; rewrite S1, S2; reflexivity).
    rewrite Hcfg, S1, S3 in *.
    rewrite opened_app, seekTargets_app, slept_app, handlerCalls_app.
    repeat split; try congruence; apply Forall_app; split; assumption.
Qed.

Lemma closed_app tr1 tr2 : closed (tr1 ++ tr2) = closed tr1 ++ closed tr2.
Proof. unfold closed. apply flat_map_app. Qed.

Lemma sleepsOf_app d tr1 tr2 :
  sleepsOf d (tr1 ++ tr2) = (sleepsOf d tr1 + sleepsOf d tr2)%nat.
Proof. unfold sleepsOf. rewrite slept_app. apply count_occ_app. Qed.

Lemma step_connections w :
  (List.length (opened (snd (step env w))) + recovering (fst (step env w)) =
   List.length (closed (snd (step env w)))
   + sleepsOf (time.Second * 3)%Z (snd (step env w)) + recovering w)%nat /\
  List.length (closed (snd (step env w))) =
  sleepsOf (time.Millisecond * 200)%Z (snd (step env w)).
Proof.
  unfold step, recovering.
  destruct (at_phase w) eqn:Hp.
  - destruct (reader (self w)) as [r|] eqn:Hr; [|split; reflexivity].
    destruct (env_FetchMessage env (fetches w) r) as [msg [e|]].
    + unfold recover_close. rewrite Hr. split; reflexivity.
    + destruct (kafka.Offset msg <=? maxOffset w); split; reflexivity.
  - unfold createReader.
    destruct (env_SetOffset env (seeks w) _ kafka.LastOffset);
      split; reflexivity.
  - cbn [fst snd]. rewrite Hp. split; reflexivity.
Qed.

(** X10. Connections are opened more often than they are closed.  Over
    any run, the connections opened exceed those closed by one per failed
    reconnection attempt (an attempt being failed when it is followed by
    the 3 s sleep), up to the recovery the run starts or ends in; and a
    connection is closed only after the 200 ms sleep of a failed fetch,
    once each.  So between two moments of fetching, every failed attempt
    has left one connection that is never closed. *)
Theorem connections_opened_vs_closed (w : Worker) (n : nat) :
  let w' := fst (run env n w) in
  let tr := snd (run env n w) in
  (List.length (opened tr) + recovering w' =
   List.length (closed tr) + sleepsOf (time.Second * 3)%Z tr + recovering w)%nat /\
  List.length (closed tr) = sleepsOf (time.Millisecond * 200)%Z tr /\
  (at_phase w = Consuming -> at_phase w' = Consuming ->
   List.length (opened tr) =
   (List.length (closed tr) + sleepsOf (time.Second * 3)%Z tr)%nat).
Proof.
  cbv zeta.
  assert (H : forall n w,
             (List.length (opened (snd (run env n w)))
              + recovering (fst (run env n w)) =
              List.length (closed (snd (run env n w)))
              + sleepsOf (time.Second * 3)%Z (snd (run env n w))
              + recovering w)%nat /\
             List.length (closed (snd (run env n w))) =
             sleepsOf (time.Millisecond * 200)%Z (snd (run env n w))).
  { clear w n. induction n as [|n IH]; intros w; [split; reflexivity|].
    rewrite run_S. cbn [fst snd].
    destruct (step_connections w) as [S1 S2].
    destruct (IH (fst (step env w))) as [I1 I2].
    rewrite opened_app, closed_app, !sleepsOf_app, !length_app.
    split; lia. }
  destruct (H n w) as [H1 H2]. split; [exact H1|]. split; [exact H2|].
  intros Hw Hw'. unfold recovering in H1. rewrite Hw, Hw' in H1. lia.
Qed.

End WorkerLoopFacts.

Lemma connections_opened_vs_closed_witness :
  List.length (opened (snd (run envOutage 6 (Start_init workerSample)))) = 2%nat /\
  List.length (closed (snd (run envOutage 6 (Start_init workerSample)))) = 1%nat.
Proof.
  pose proof (connections_opened_vs_closed envOutage (Start_init workerSample) 6)
    as H.
  cbv zeta in H. destruct H as (_ & _ & H).
  specialize (H eq_refl eq_refl).
  split; [rewrite H|]; reflexivity.
Defined.

Example fetchedBy_outage :
  map kafka.Offset
    (received (fetchedBy envOutage 6 (Start_init workerSample))) = [5; 3; 9].
Proof. reflexivity. Qed.

(** ** More on the partition catalog *)

Lemma logged_app tr1 tr2 : logged (tr1 ++ tr2) = logged tr1 ++ logged tr2.
Proof. unfold logged. apply flat_map_app. Qed.

Lemma LookupPartitions_from_prefix env log topic brokers :
  forall calls,
    let res := kafkalib.LookupPartitions_from env calls log brokers topic in
    exists k,
      (k <= List.length brokers)%nat /\
      queried (snd res) = map (queryFor topic) (firstn k brokers) /\
      (snd (fst res) = None -> (List.length (logged (snd res)) + 1 = k)%nat) /\
      (snd (fst res) <> None ->
       fst res = ([], Some ErrNonePartionFound) /\
       k = List.length brokers /\ List.length (logged (snd res)) = k).
Proof.
  induction brokers as [|addr rest IH]; intros calls; cbv zeta.
  - exists 0%nat. cbn. repeat split; auto; discriminate.
  - rewrite LookupPartitions_from_cons.
    destruct (env_LookupPartitions env calls (3 * time.Second) "tcp" addr topic)
      as [parts [e|]].
    + destruct (IH (S calls)) as (k & Hk & Hq & Hok & Hbad).
      destruct (kafkalib.LookupPartitions_from env (S calls) log rest topic)
        as [res tr'].
      cbn [fst snd] in *. exists (S k). split; [cbn; lia|].
      rewrite !queried_app, !logged_app, !length_app, Hq. cbn [firstn map].
      split; [reflexivity|]. split.
      * intros Hn. specialize (Hok Hn). cbn. lia.
      * intros Hn. destruct (Hbad Hn) as (H1 & H2 & H3).
        split; [exact H1|]. cbn. split; lia.
    + exists 1%nat. cbn. split; [lia|]. split; [reflexivity|].
      split; [reflexivity|]. intros H; contradiction.
Qed.

(** X11. Whatever the brokers answer, the addresses [LookupPartitions]
    has queried are an initial segment of the broker list: no address is
    skipped, queried twice or queried out of order.  It logs one error per
    failed query.  It returns an error only after querying every address,
    the error is then [ErrNonePartionFound] and the partition list nil;
    with an empty broker list that is the result without any query. *)
Theorem LookupPartitions_queries_prefix
    (env : Env) (log : Logger) (brokers : list string) (topic : string) :
  let res := kafkalib.LookupPartitions env log brokers topic in
  exists k,
    (k <= List.length brokers)%nat /\
    queried (snd res) = map (queryFor topic) (firstn k brokers) /\
    (snd (fst res) = None -> (List.length (logged (snd res)) + 1 = k)%nat) /\
    (snd (fst res) <> None ->
     fst res = ([], Some ErrNonePartionFound) /\
     k = List.length brokers /\ List.length (logged (snd res)) = k).
Proof.
  cbv zeta. unfold kafkalib.LookupPartitions.
  destruct (LookupPartitions_from_prefix env log topic brokers 0%nat)
    as (k & Hk & Hq & Hok & Hbad).
  exists k. split; [exact Hk|]. split; [exact Hq|].
  split; [exact Hok|exact Hbad].
Qed.

(** ** Package common: arithmetic helpers *)

Lemma land_pred_pow2 k : 0 <= k -> Z.land (2 ^ k) (2 ^ k - 1) = 0.
Proof.
  intros Hk. apply Z.bits_inj'. intros i Hi.
  rewrite Z.land_spec, Z.bits_0, Z.pow2_bits_eqb by assumption.
  replace (2 ^ k - 1) with (Z.ones k) by (rewrite Z.ones_equiv; lia).
  destruct (Z.eqb_spec k i) as [->|Hne]; [|reflexivity].
  rewrite Z.ones_spec_high by lia. reflexivity.
Qed.

Lemma land_pred_zero_pow2 n :
  1 < n -> Z.land n (n - 1) = 0 -> n = 2 ^ Z.log2 n.
Proof.
  intros Hn Hland.
  destruct (Z.log2_spec n ltac:(lia)) as [Hlo Hhi].
  destruct (Z.eq_dec n (2 ^ Z.log2 n)) as [|Hne]; [assumption|exfalso].
  assert (Hlog : Z.log2 (n - 1) = Z.log2 n).
  { apply Z.log2_unique; [apply Z.log2_nonneg|].
    replace (Z.succ (Z.log2 n)) with (Z.log2 n + 1) in * by lia. lia. }
  assert (Hb1 : Z.testbit n (Z.log2 n) = true)
    by (apply Z.bit_log2; lia).
  assert (Hb2 : Z.testbit (n - 1) (Z.log2 n) = true)
    by (rewrite <- Hlog; apply Z.bit_log2; lia).
  assert (Hb : Z.testbit (Z.land n (n - 1)) (Z.log2 n) = true)
    by (rewrite Z.land_spec, Hb1, Hb2; reflexivity).
  rewrite Hland, Z.bits_0 in Hb. discriminate.
Qed.

Lemma IsPowerOfTwo_iff n :
  GoInt.min_int <= n <= GoInt.max_int ->
  common.IsPowerOfTwo n = true <-> exists k, 1 <= k <= 62 /\ n = 2 ^ k.
Proof.
  unfold GoInt.min_int, GoInt.max_int, GoInt.bits.
  change (2 ^ (64 - 1)) with 9223372036854775808.
  intros Hr. unfold common.IsPowerOfTwo.
  rewrite andb_true_iff, Z.ltb_lt, Z.eqb_eq. split.
  - intros [Hn Hland].
    assert (Hw : GoInt.wrap (n - 1) = n - 1).
    { unfold GoInt.wrap, GoInt.min_int, GoInt.modulus, GoInt.bits.
      change (2 ^ (64 - 1)) with 9223372036854775808.
      change (2 ^ 64) with 18446744073709551616.
      Z.div_mod_to_equations. lia. }
    rewrite Hw in Hland.
    pose proof (land_pred_zero_pow2 n Hn Hland) as Hpow.
    exists (Z.log2 n). split; [|exact Hpow].
    assert (0 < Z.log2 n) by (apply Z.log2_pos; lia).
    assert (Z.log2 n < 63).
    { apply Z.log2_lt_pow2; [lia|].
      change (2 ^ 63) with 9223372036854775808. lia. }
    lia.
  - intros (k & Hk & ->).
    assert (Hlt : 2 ^ 1 <= 2 ^ k) by (apply Z.pow_le_mono_r; lia).
    assert (Hlt' : 2 ^ k <= 2 ^ 62) by (apply Z.pow_le_mono_r; lia).
    change (2 ^ 1) with 2 in Hlt.
    change (2 ^ 62) with 4611686018427387904 in Hlt'.
    split; [lia|].
    assert (Hw : GoInt.wrap (2 ^ k - 1) = 2 ^ k - 1).
    { unfold GoInt.wrap, GoInt.min_int, GoInt.modulus, GoInt.bits.
      change (2 ^ (64 - 1)) with 9223372036854775808.
      change (2 ^ 64) with 18446744073709551616.
      Z.div_mod_to_equations. lia. }
    rewrite Hw. apply land_pred_pow2. lia.
Qed.

(** X12. On [int], [IsPowerOfTwo] holds exactly for 2, 4, 8, ..., 2^62:
    the powers of two with exponent at least 1.  It rejects 1 (2^0), 0
    and every negative number. *)
Theorem IsPowerOfTwo_spec (n : Z) :
  GoInt.min_int <= n <= GoInt.max_int ->
  (common.IsPowerOfTwo n = true <-> exists k, 1 <= k <= 62 /\ n = 2 ^ k) /\
  (n <= 1 -> common.IsPowerOfTwo n = false).
Proof.
  intros Hr. split; [apply IsPowerOfTwo_iff; exact Hr|].
  intros Hn. unfold common.IsPowerOfTwo.
  destruct (Z.ltb_spec 1 n); [lia|reflexivity].
Qed.

Lemma IsPowerOfTwo_spec_witness :
  common.IsPowerOfTwo 4096 = true /\ common.IsPowerOfTwo 1 = false.
Proof.
  assert (Hr : GoInt.min_int <= 4096 <= GoInt.max_int) by (vm_compute; split; discriminate).
  assert (Hr1 : GoInt.min_int <= 1 <= GoInt.max_int) by (vm_compute; split; discriminate).
  split.
  - apply (proj1 (IsPowerOfTwo_spec 4096 Hr)). exists 12. split; [lia|reflexivity].
  - apply (proj2 (IsPowerOfTwo_spec 1 Hr1)). lia.
Defined.

(** X13. [Abs] on [int] is the absolute value except at the smallest
    [int], whose negation wraps: [Abs(math.MinInt)] is [math.MinInt]
    itself, a negative number.  Everywhere else the result is
    non-negative. *)
Theorem Abs_spec (a : Z) :
  GoInt.min_int <= a <= GoInt.max_int ->
  (a <> GoInt.min_int -> common.Abs a = Z.abs a /\ 0 <= common.Abs a) /\
  (a = GoInt.min_int -> common.Abs a = GoInt.min_int /\ common.Abs a < 0).
Proof.
  unfold common.Abs, GoInt.wrap, GoInt.min_int, GoInt.max_int, GoInt.modulus,
    GoInt.bits.
  change (2 ^ (64 - 1)) with 9223372036854775808.
  change (2 ^ 64) with 18446744073709551616.
  intros Hr. split.
  - intros Hne. destruct (Z.ltb_spec a 0).
    + split; Z.div_mod_to_equations; lia.
    + split; lia.
  - intros ->. cbn. split; [reflexivity|lia].
Qed.

Lemma Abs_spec_witness :
  common.Abs (-7) = 7 /\ common.Abs GoInt.min_int = GoInt.min_int.
Proof.
  split.
  - refine (proj1 (proj1 (Abs_spec (-7) _) _)).
    + vm_compute; split; discriminate.
    + vm_compute; discriminate.
  - refine (proj1 (proj2 (Abs_spec GoInt.min_int _) eq_refl)).
    vm_compute; split; discriminate.
Defined.

(** X14. [Min] and [Max] on [int] are the lattice operations of the
    order: each returns one of its arguments, they are commutative and
    associative, each absorbs the other, and together they return both
    arguments ([Min a b + Max a b = a + b]). *)
Theorem Min_Max_lattice (a b c : Z) :
  common.Min a b <= common.Max a b /\
  common.Min a b + common.Max a b = a + b /\
  common.Max a b = common.Max b a /\
  common.Min a b = common.Min b a /\
  common.Max (common.Max a b) c = common.Max a (common.Max b c) /\
  common.Min (common.Min a b) c = common.Min a (common.Min b c) /\
  common.Max a (common.Min a b) = a /\
  common.Min a (common.Max a b) = a /\
  (common.Max a b <= c <-> a <= c /\ b <= c) /\
  (c <= common.Min a b <-> c <= a /\ c <= b).
Proof.
  unfold common.Max, common.Min.
  repeat match goal with
         | |- context [?x <? ?y] => destruct (Z.ltb_spec x y)
         end; repeat split; intros; lia.
Qed.

(** ** Package common: [TickPacer] *)

Lemma TickPacer_Go_step p :
  0 <= TickPacer.pace p < Uint64.modulus - 1 ->
  0 <= sinceLast p <= TickPacer.pace p ->
  let '(p', fired) := TickPacer.Go p in
  TickPacer.pace p' = TickPacer.pace p /\
  fired = (sinceLast p =? TickPacer.pace p) /\
  sinceLast p' = (if fired then 0 else sinceLast p + 1).
Proof.
  unfold sinceLast, TickPacer.Go, Uint64.wrap, Uint64.modulus.
  change (2 ^ 64) with 18446744073709551616.
  intros Hp Hd.
  assert (Hstep : ((TickPacer.tick p + 1) mod 18446744073709551616
                   - TickPacer.last p) mod 18446744073709551616 =
                  (TickPacer.tick p - TickPacer.last p)
                    mod 18446744073709551616 + 1).
  { rewrite Zminus_mod_idemp_l.
    replace (TickPacer.tick p + 1 - TickPacer.last p)
      with (TickPacer.tick p - TickPacer.last p + 1) by lia.
    rewrite <- Zplus_mod_idemp_l. apply Z.mod_small. lia. }
  rewrite Hstep.
  destruct (Z.ltb_spec (TickPacer.pace p)
              ((TickPacer.tick p - TickPacer.last p)
                 mod 18446744073709551616 + 1)) as [Hlt|Hge];
    cbn [TickPacer.pace TickPacer.tick TickPacer.last].
  - split; [reflexivity|]. split; [symmetry; apply Z.eqb_eq; lia|].
    rewrite Z.sub_diag. reflexivity.
  - split; [reflexivity|]. split; [symmetry; apply Z.eqb_neq; lia|].
    exact Hstep.
Qed.

Lemma TickPacer_Go_times_from n :
  forall p,
    0 <= TickPacer.pace p < Uint64.modulus - 1 ->
    0 <= sinceLast p <= TickPacer.pace p ->
    snd (TickPacer.Go_times n p) =
    map (fun i => (sinceLast p + Z.of_nat (S i)) mod (TickPacer.pace p + 1) =? 0)
      (seq 0 n).
Proof.
  induction n as [|n IH]; intros p Hp Hd; [reflexivity|].
  cbn [TickPacer.Go_times].
  pose proof (TickPacer_Go_step p Hp Hd) as Hs.
  destruct (TickPacer.Go p) as [p1 fired].
  destruct Hs as (Hpace & Hf & Hd1).
  specialize (IH p1).
  destruct (TickPacer.Go_times n p1) as [p2 bs]. cbn [snd] in *.
  rewrite IH.
  2:{ rewrite Hpace. exact Hp. }
  2:{ rewrite Hpace, Hd1. destruct fired; [lia|].
      symmetry in Hf. apply Z.eqb_neq in Hf. lia. }
  cbn [seq map]. f_equal.
  - rewrite Hf. change (Z.of_nat 1) with 1.
    destruct (Z.eqb_spec (sinceLast p) (TickPacer.pace p)) as [He|Hne].
    + rewrite He, Z.mod_same by lia. reflexivity.
    + rewrite Z.mod_small by lia. symmetry. apply Z.eqb_neq. lia.
  - rewrite <- seq_shift, map_map. apply map_ext. intros i.
    rewrite Hpace, Hd1. f_equal.
    destruct fired.
    + symmetry in Hf. apply Z.eqb_eq in Hf. rewrite Hf.
      replace (TickPacer.pace p + Z.of_nat (S (S i)))
        with (0 + Z.of_nat (S i) + 1 * (TickPacer.pace p + 1)) by lia.
      rewrite Z.mod_add by lia. reflexivity.
    + f_equal. lia.
Qed.

(** X15. A [TickPacer] of pace [p] runs [f] on every [(p+1)]-th call of
    [Go] and on no other: of the calls made since [NewTickPacer], the
    [i]-th runs [f] exactly when [p+1] divides [i], so the first [p] calls
    never do.  This holds however many calls are made, also after the
    64-bit tick counter has wrapped around. *)
Theorem TickPacer_fires_every_pace_plus_one (pace : Z) (n : nat) :
  0 <= pace < Uint64.modulus - 1 ->
  snd (TickPacer.Go_times n (NewTickPacer pace)) =
  map (fun i => Z.of_nat (S i) mod (pace + 1) =? 0) (seq 0 n).
Proof.
  intros Hp.
  rewrite (TickPacer_Go_times_from n (NewTickPacer pace)).
  - apply map_ext. intros i. reflexivity.
  - exact Hp.
  - cbn. lia.
Qed.

Lemma TickPacer_fires_every_pace_plus_one_witness :
  snd (TickPacer.Go_times 7 (NewTickPacer 2)) =
  [false; false; true; false; false; true; false].
Proof.
  rewrite (TickPacer_fires_every_pace_plus_one 2 7).
  - reflexivity.
  - vm_compute. split; [discriminate|reflexivity].
Defined.

(** ** Package common: [SyncMap] *)

Section SyncMapFacts.

Context {K T : Type}.
Variable K_eq_dec : forall a b : K, {a = b} + {a <> b}.

Lemma SyncMap_apply_get (lm : @SyncMap.t K T) (o : @SyncMap.op K T) (k : K) :
  SyncMap.Get (SyncMap.apply K_eq_dec lm o) k = SyncMap.Get lm k \/
  (fst (SyncMap.offered o) = k /\
   SyncMap.Get (SyncMap.apply K_eq_dec lm o) k = Some (snd (SyncMap.offered o))).
Proof.
  destruct o as [key n|key n f]; cbn.
  - unfold SyncMap.Get, SyncMap.Update; cbn.
    destruct (K_eq_dec k key) as [->|]; [right; split; reflexivity|left; reflexivity].
  - unfold SyncMap.UpdateIf.
    destruct (SyncMap.d lm key) as [old|]; [destruct (f old n)|]; cbn;
      try (left; reflexivity);
      unfold SyncMap.Get; cbn;
      (destruct (K_eq_dec k key) as [->|];
       [right; split; reflexivity|left; reflexivity]).
Qed.

(** X16. A [SyncMap] only grows and only holds what it was given: after
    any sequence of [Update] and [UpdateIf] calls, a key that was present
    is still present, and a value found under a key was either there
    before or was offered for that very key by one of the calls.  An
    [UpdateIf] on an absent key stores its value without asking [f]. *)
Theorem SyncMap_only_grows (lm : @SyncMap.t K T) (ops : list (@SyncMap.op K T)) (k : K) :
  let lm' := fold_left (SyncMap.apply K_eq_dec) ops lm in
  (SyncMap.Get lm k <> None -> SyncMap.Get lm' k <> None) /\
  (forall v, SyncMap.Get lm' k = Some v ->
             SyncMap.Get lm k = Some v \/
             In (k, v) (map SyncMap.offered ops)) /\
  (forall n f, SyncMap.Get lm k = None ->
               snd (SyncMap.UpdateIf K_eq_dec lm k n f) = true /\
               SyncMap.Get (fst (SyncMap.UpdateIf K_eq_dec lm k n f)) k = Some n).
Proof.
  cbv zeta. split; [|split].
  - revert lm. induction ops as [|o ops IH]; intros lm Hk; [exact Hk|].
    cbn [fold_left]. apply IH.
    destruct (SyncMap_apply_get lm o k) as [->|[_ ->]]; [exact Hk|discriminate].
  - revert lm. induction ops as [|o ops IH]; intros lm v Hv; [left; exact Hv|].
    cbn [fold_left] in Hv. destruct (IH _ _ Hv) as [H|H].
    + destruct (SyncMap_apply_get lm o k) as [E|[E1 E2]].
      * left. rewrite <- E. exact H.
      * right. left. rewrite H in E2. inversion E2; subst.
        destruct (SyncMap.offered o); reflexivity.
    + right. right. exact H.
  - intros n f Hk. unfold SyncMap.UpdateIf, SyncMap.Get in *. rewrite Hk. cbn.
    destruct (K_eq_dec k k); [split; reflexivity|contradiction].
Qed.

End SyncMapFacts.

Lemma SyncMap_only_grows_witness :
  SyncMap.Get
    (fold_left (SyncMap.apply String.string_dec)
       [SyncMap.OpUpdateIf "a"%string 1 Z.ltb;
        SyncMap.OpUpdateIf "a"%string 0 Z.ltb]
       (SyncMap.Update String.string_dec (SyncMap.New 8) "b"%string 5))
    "b"%string <> None.
Proof.
  apply (proj1 (SyncMap_only_grows String.string_dec
                  (SyncMap.Update String.string_dec (SyncMap.New 8) "b"%string 5)
                  [SyncMap.OpUpdateIf "a"%string 1 Z.ltb;
                   SyncMap.OpUpdateIf "a"%string 0 Z.ltb] "b"%string)).
  vm_compute. discriminate.
Defined.

(** X17. [NewSyncMapGroup(g, c)] panics unless [g] is one of 2, 4, 8, ...:
    a group of one map, of zero maps or of a negative number of maps is
    refused.  Otherwise it returns exactly [g] maps, each of them empty. *)
Theorem NewSyncMapGroup_spec (K T : Type) (g c : Z) :
  GoInt.min_int <= g <= GoInt.max_int ->
  (@NewSyncMapGroup K T g c = None <->
     ~ exists k, 1 <= k <= 62 /\ g = 2 ^ k) /\
  (g <= 1 -> @NewSyncMapGroup K T g c = None) /\
  (forall r, @NewSyncMapGroup K T g c = Some r ->
             Z.of_nat (List.length r) = g /\
             Forall (fun lm => forall k, SyncMap.Get lm k = None) r).
Proof.
  intros Hr. unfold NewSyncMapGroup.
  pose proof (IsPowerOfTwo_iff g Hr) as Hiff.
  destruct (common.IsPowerOfTwo g) eqn:Hp; cbn [negb].
  - split; [|split].
    + split; [discriminate|]. intros Hn. exfalso. apply Hn. apply Hiff. reflexivity.
    + intros Hle. unfold common.IsPowerOfTwo in Hp.
      destruct (Z.ltb_spec 1 g); [lia|discriminate].
    + intros r Hs. inversion Hs; subst. split.
      * rewrite length_map, length_seq.
        unfold common.IsPowerOfTwo in Hp.
        destruct (Z.ltb_spec 1 g); [lia|discriminate].
      * apply Forall_forall. intros lm Hin. apply in_map_iff in Hin.
        destruct Hin as (i & <- & _). reflexivity.
  - split; [|split].
    + split; [|reflexivity]. intros _ Hex. apply Hiff in Hex. discriminate.
    + reflexivity.
    + discriminate.
Qed.

Lemma NewSyncMapGroup_spec_witness :
  @NewSyncMapGroup string Z 1 16 = None.
Proof.
  refine (proj1 (proj2 (NewSyncMapGroup_spec string Z 1 16 _)) _).
  - vm_compute; split; discriminate.
  - lia.
Defined.

(** ** Package common: [TriggerWindow] *)

Section TriggerWindowFacts.

Context {T Time : Type}.
Variable T_eq_dec : forall a b : T, {a = b} + {a <> b}.
Variable Sub : Time -> Time -> time.Duration.

Lemma recordsOf_setRecords (tc : @TriggerWindow.t T Time) symbol l :
  TriggerWindow.recordsOf (TriggerWindow.setRecords T_eq_dec tc symbol l) symbol
  = l.
Proof.
  unfold TriggerWindow.recordsOf, TriggerWindow.setRecords. cbn.
  destruct (T_eq_dec symbol symbol); [reflexivity|contradiction].
Qed.

(** X18. One [Trigger] touches the record of its own symbol only and
    keeps that record short: afterwards the symbol has a record, empty if
    the limit was reached, and with a limit of at least 1 always shorter
    than the limit; what it holds is the current reading and earlier
    readings that passed the window test.  With a limit of 1 or less
    every call reports the limit reached. *)
Theorem Trigger_keeps_record_short
    (tc : @TriggerWindow.t T Time) (symbol : T) (now : Time) :
  let tc' := fst (TriggerWindow.Trigger T_eq_dec Sub tc symbol now) in
  let reached := snd (TriggerWindow.Trigger T_eq_dec Sub tc symbol now) in
  (forall s, s <> symbol ->
             TriggerWindow.records tc' s = TriggerWindow.records tc s) /\
  TriggerWindow.interval tc' = TriggerWindow.interval tc /\
  TriggerWindow.limit tc' = TriggerWindow.limit tc /\
  TriggerWindow.records tc' symbol <> None /\
  (reached = true -> TriggerWindow.recordsOf tc' symbol = []) /\
  (1 <= TriggerWindow.limit tc ->
   Z.of_nat (List.length (TriggerWindow.recordsOf tc' symbol))
   < TriggerWindow.limit tc) /\
  (TriggerWindow.limit tc <= 1 -> reached = true) /\
  Forall (fun x => x = now \/
                   (In x (TriggerWindow.recordsOf tc symbol) /\
                    Sub now x <= TriggerWindow.interval tc))
    (TriggerWindow.recordsOf tc' symbol).
Proof.
  cbv zeta. unfold TriggerWindow.Trigger. cbn [fst snd].
  rewrite recordsOf_setRecords.
  set (valid := filter _ _).
  split; [|split; [reflexivity|split; [reflexivity|split]]].
  - intros s Hs. cbn. destruct (T_eq_dec s symbol); [contradiction|reflexivity].
  - cbn. destruct (T_eq_dec symbol symbol); [discriminate|contradiction].
  - rewrite length_app. cbn [List.length].
    destruct (Z.leb_spec (TriggerWindow.limit tc)
                (Z.of_nat (List.length valid + 1))) as [Hle|Hgt].
    + split; [reflexivity|]. split; [cbn; lia|]. split; [reflexivity|constructor].
    + split; [discriminate|]. split; [rewrite length_app; cbn; lia|].
      split; [lia|].
      apply Forall_app. split; [|repeat constructor].
      apply Forall_forall. intros x Hx. subst valid.
      apply filter_In in Hx. destruct Hx as [Hin Hle]. right.
      split; [exact Hin|]. apply Z.leb_le. exact Hle.
Qed.

Lemma Trigger_keeps_all (tc : @TriggerWindow.t T Time) symbol now :
  Forall (fun x => Sub now x <= TriggerWindow.interval tc)
    (TriggerWindow.recordsOf tc symbol) ->
  TriggerWindow.Trigger T_eq_dec Sub tc symbol now =
  let kept := TriggerWindow.recordsOf tc symbol ++ [now] in
  let reached :=
    TriggerWindow.limit tc <=? Z.of_nat (List.length kept) in
  (TriggerWindow.setRecords T_eq_dec tc symbol (if reached then [] else kept),
   reached).
Proof.
  intros Hall. unfold TriggerWindow.Trigger. cbv zeta.
  assert (Hf : filter (fun x => Sub now x <=? TriggerWindow.interval tc)
                 (TriggerWindow.recordsOf tc symbol)
               = TriggerWindow.recordsOf tc symbol).
  { induction Hall as [|x l Hx _ IH]; [reflexivity|].
    cbn. apply Z.leb_le in Hx. rewrite Hx, IH. reflexivity. }
  rewrite Hf. reflexivity.
Qed.

Lemma Trigger_all_below_limit (ts : list Time) :
  forall (tc : @TriggerWindow.t T Time) symbol,
    Forall (fun t => Forall (fun x => Sub t x <= TriggerWindow.interval tc)
                       (TriggerWindow.recordsOf tc symbol)) ts ->
    TriggerWindow.withinWindow Sub (TriggerWindow.interval tc) ts ->
    Z.of_nat (List.length (TriggerWindow.recordsOf tc symbol) + List.length ts)
    < TriggerWindow.limit tc ->
    let res := TriggerWindow.Trigger_all T_eq_dec Sub tc symbol ts in
    snd res = repeat false (List.length ts) /\
    TriggerWindow.recordsOf (fst res) symbol
    = TriggerWindow.recordsOf tc symbol ++ ts /\
    TriggerWindow.interval (fst res) = TriggerWindow.interval tc /\
    TriggerWindow.limit (fst res) = TriggerWindow.limit tc.
Proof.
  induction ts as [|t ts IH]; intros tc symbol Hold Hpairs Hlen; cbv zeta.
  - cbn. rewrite app_nil_r. repeat split.
  - cbn [TriggerWindow.Trigger_all].
    inversion Hold as [|? ? Ht Hrest]; subst.
    inversion Hpairs as [|? ? Hfirst Hpairs']; subst.
    rewrite (Trigger_keeps_all tc symbol t Ht). cbv zeta.
    cbn [List.length] in Hlen.
    destruct (Z.leb_spec (TriggerWindow.limit tc)
                (Z.of_nat (List.length
                             (TriggerWindow.recordsOf tc symbol ++ [t]))))
      as [Hle|Hgt].
    { rewrite length_app in Hle. cbn in Hle. lia. }
    specialize (IH (TriggerWindow.setRecords T_eq_dec tc symbol
                      (TriggerWindow.recordsOf tc symbol ++ [t])) symbol).
    rewrite recordsOf_setRecords in IH. cbn [TriggerWindow.interval
      TriggerWindow.limit TriggerWindow.setRecords] in IH.
    destruct (TriggerWindow.Trigger_all T_eq_dec Sub
                (TriggerWindow.setRecords T_eq_dec tc symbol
                   (TriggerWindow.recordsOf tc symbol ++ [t])) symbol ts)
      as [tc2 bs].
    cbn [fst snd] in *.
    destruct IH as (I1 & I2 & I3 & I4).
    + rewrite Forall_forall in *. intros t' Ht'.
      apply Forall_app. split; [apply Hrest; exact Ht'|].
      constructor; [|constructor]. apply Hfirst. exact Ht'.
    + exact Hpairs'.
    + rewrite length_app. cbn. lia.
    + rewrite I1, I2, <- app_assoc. repeat split; assumption.
Qed.

Lemma Trigger_all_app (ts1 ts2 : list Time) :
  forall (tc : @TriggerWindow.t T Time) symbol,
    TriggerWindow.Trigger_all T_eq_dec Sub tc symbol (ts1 ++ ts2) =
    (fst (TriggerWindow.Trigger_all T_eq_dec Sub
            (fst (TriggerWindow.Trigger_all T_eq_dec Sub tc symbol ts1))
            symbol ts2),
     snd (TriggerWindow.Trigger_all T_eq_dec Sub tc symbol ts1)
     ++ snd (TriggerWindow.Trigger_all T_eq_dec Sub
               (fst (TriggerWindow.Trigger_all T_eq_dec Sub tc symbol ts1))
               symbol ts2)).
Proof.
  induction ts1 as [|t ts1 IH]; intros tc symbol.
  - cbn. destruct (TriggerWindow.Trigger_all T_eq_dec Sub tc symbol ts2);
      reflexivity.
  - cbn [app TriggerWindow.Trigger_all].
    destruct (TriggerWindow.Trigger T_eq_dec Sub tc symbol t) as [tc1 b].
    rewrite IH.
    destruct (TriggerWindow.Trigger_all T_eq_dec Sub tc1 symbol ts1)
      as [tc2 bs].
    reflexivity.
Qed.

Lemma ForallOrdPairs_app_inv (R : Time -> Time -> Prop) l t :
  ForallOrdPairs R (l ++ [t]) ->
  ForallOrdPairs R l /\ Forall (fun x => R x t) l.
Proof.
  induction l as [|a l IH]; intros H; [split; constructor|].
  cbn [app] in H. inversion H as [|? ? Ha Hl]; subst.
  destruct (IH Hl) as [I1 I2]. split.
  - constructor; [|exact I1].
    apply Forall_app in Ha. destruct Ha as [Ha _]. exact Ha.
  - constructor; [|exact I2].
    apply Forall_app in Ha. destruct Ha as [_ Ha].
    inversion Ha; assumption.
Qed.

(** X19. A burst reaches the limit exactly at its [limit]-th hit: on a
    symbol without record, [limit] readings each within the window of all
    later ones give [limit - 1] calls that report nothing and a last call
    that reports the limit reached, after which the record is empty again
    and counting starts anew. *)
Theorem Trigger_burst_reaches_limit
    (limit : Z) (interval : time.Duration) (symbol : T)
    (ts : list Time) (t : Time) :
  Z.of_nat (List.length ts) + 1 = limit ->
  TriggerWindow.withinWindow Sub interval (ts ++ [t]) ->
  let res := TriggerWindow.Trigger_all T_eq_dec Sub
               (NewTriggerWindow limit interval) symbol (ts ++ [t]) in
  snd res = repeat false (List.length ts) ++ [true] /\
  TriggerWindow.recordsOf (fst res) symbol = [].
Proof.
  intros Hlen Hwin. cbv zeta.
  destruct (ForallOrdPairs_app_inv _ _ _ Hwin) as [Hts Hlast].
  rewrite Trigger_all_app.
  destruct (Trigger_all_below_limit ts (NewTriggerWindow limit interval) symbol)
    as (I1 & I2 & I3 & I4).
  { apply Forall_forall. intros x _. constructor. }
  { exact Hts. }
  { cbn. lia. }
  cbn [fst snd]. rewrite I1.
  cbn [TriggerWindow.Trigger_all].
  rewrite Trigger_keeps_all.
  2:{ rewrite I2, I3. cbn. exact Hlast. }
  cbv zeta. rewrite I2, I4. cbn [app NewTriggerWindow TriggerWindow.recordsOf
    TriggerWindow.records TriggerWindow.limit].
  assert (Hr : (limit <=? Z.of_nat (List.length (ts ++ [t]))) = true).
  { apply Z.leb_le. rewrite length_app. cbn. lia. }
  rewrite Hr. cbn [fst snd]. split; [reflexivity|].
  apply recordsOf_setRecords.
Qed.


Lemma Trigger_drops_all (tc : @TriggerWindow.t T Time) symbol now :
  Forall (fun x => TriggerWindow.interval tc < Sub now x)
    (TriggerWindow.recordsOf tc symbol) ->
  TriggerWindow.Trigger T_eq_dec Sub tc symbol now =
  (TriggerWindow.setRecords T_eq_dec tc symbol
     (if TriggerWindow.limit tc <=? 1 then [] else [now]),
   TriggerWindow.limit tc <=? 1).
Proof.
  intros Hall. unfold TriggerWindow.Trigger. cbv zeta.
  assert (Hf : filter (fun x => Sub now x <=? TriggerWindow.interval tc)
                 (TriggerWindow.recordsOf tc symbol) = []).
  { induction Hall as [|x l Hx _ IH]; [reflexivity|].
    cbn. apply Z.leb_gt in Hx. rewrite Hx, IH. reflexivity. }
  rewrite Hf. reflexivity.
Qed.

Lemma Trigger_all_sparse (ts : list Time) :
  forall (tc : @TriggerWindow.t T Time) symbol,
    2 <= TriggerWindow.limit tc ->
    Forall (fun t => Forall (fun x => TriggerWindow.interval tc < Sub t x)
                       (TriggerWindow.recordsOf tc symbol)) ts ->
    TriggerWindow.beyondWindow Sub (TriggerWindow.interval tc) ts ->
    let res := TriggerWindow.Trigger_all T_eq_dec Sub tc symbol ts in
    snd res = repeat false (List.length ts) /\
    TriggerWindow.recordsOf (fst res) symbol =
    match rev ts with
    | [] => TriggerWindow.recordsOf tc symbol
    | t :: _ => [t]
    end.
Proof.
  induction ts as [|t ts IH]; intros tc symbol Hlim Hold Hpairs; cbv zeta.
  - split; reflexivity.
  - cbn [TriggerWindow.Trigger_all].
    inversion Hold as [|? ? Ht Hrest]; subst.
    inversion Hpairs as [|? ? Hfirst Hpairs']; subst.
    rewrite (Trigger_drops_all tc symbol t Ht).
    destruct (Z.leb_spec (TriggerWindow.limit tc) 1) as [Hle|_]; [lia|].
    specialize (IH (TriggerWindow.setRecords T_eq_dec tc symbol [t]) symbol).
    rewrite recordsOf_setRecords in IH.
    cbn [TriggerWindow.interval TriggerWindow.limit TriggerWindow.setRecords]
      in IH.
    destruct (TriggerWindow.Trigger_all T_eq_dec Sub
                (TriggerWindow.setRecords T_eq_dec tc symbol [t]) symbol ts)
      as [tc2 bs].
    cbn [fst snd] in *.
    destruct IH as (I1 & I2).
    + exact Hlim.
    + rewrite Forall_forall in *. intros t' Ht'.
      constructor; [|constructor]. apply Hfirst. exact Ht'.
    + exact Hpairs'.
    + rewrite I1, I2. split; [reflexivity|].
      cbn [rev]. destruct (rev ts) as [|x l]; reflexivity.
Qed.

(** X20. Hits that are spread out never reach a limit of 2 or more: on a
    symbol without record, if every reading lies beyond the window of
    all later ones, no call reports the limit reached, however many
    there are, and the record never holds more than the latest reading. *)
Theorem Trigger_sparse_never_reaches
    (limit : Z) (interval : time.Duration) (symbol : T) (ts : list Time) :
  2 <= limit ->
  TriggerWindow.beyondWindow Sub interval ts ->
  let res := TriggerWindow.Trigger_all T_eq_dec Sub
               (NewTriggerWindow limit interval) symbol ts in
  snd res = repeat false (List.length ts) /\
  (List.length (TriggerWindow.recordsOf (fst res) symbol) <= 1)%nat.
Proof.
  intros Hlim Hs. cbv zeta.
  destruct (Trigger_all_sparse ts (NewTriggerWindow limit interval) symbol)
    as (I1 & I2).
  - exact Hlim.
  - apply Forall_forall. intros x _. constructor.
  - exact Hs.
  - split; [exact I1|]. rewrite I2.
    destruct (rev ts); cbn; lia.
Qed.

End TriggerWindowFacts.

Lemma Trigger_burst_reaches_limit_witness :
  snd (TriggerWindow.Trigger_all String.string_dec Z.sub
         (NewTriggerWindow 3 10) "s"%string ([0; 4] ++ [9]))
  = [false; false; true].
Proof.
  refine (proj1 (Trigger_burst_reaches_limit String.string_dec Z.sub 3 10
                   "s"%string [0; 4] 9 _ _)).
  - reflexivity.
  - unfold TriggerWindow.withinWindow. repeat constructor; cbn; lia.
Defined.

Lemma Trigger_sparse_never_reaches_witness :
  snd (TriggerWindow.Trigger_all String.string_dec Z.sub
         (NewTriggerWindow 2 10) "s"%string [0; 20; 40; 60])
  = [false; false; false; false].
Proof.
  refine (proj1 (Trigger_sparse_never_reaches String.string_dec Z.sub 2 10
                   "s"%string [0; 20; 40; 60] _ _)).
  - lia.
  - unfold TriggerWindow.beyondWindow. repeat constructor; cbn; lia.
Defined.

Lemma Trigger_keeps_record_short_witness :
  snd (TriggerWindow.Trigger String.string_dec Z.sub
         (NewTriggerWindow 1 10) "s"%string 5) = true.
Proof.
  apply (Trigger_keeps_record_short String.string_dec Z.sub
           (NewTriggerWindow 1 10) "s"%string 5).
  cbn. lia.
Defined.

(** ** Package common: [SyncedData] *)

Section SyncedDataFacts.

Context {T E Time : Type}.
Variable zero : T.
Variable zeroTime : Time.
Variable f : nat -> T * option E.

Lemma attempts_spec (k : nat) :
  forall (a : Z) (c : @SyncedData.state T Time),
    (1 <= k)%nat ->
    SyncedData.retryMax c = a + Z.of_nat k - 1 ->
    let '(c', r, ev) := SyncedData.attempts zero f k a c in
    exists n : nat,
      (1 <= n <= k)%nat /\
      SyncedData.calls c' = (n + SyncedData.calls c)%nat /\
      SyncedData.sleeps ev = repeat (SyncedData.retryInterval c) (n - 1) /\
      SyncedData.sameSettings c c' /\
      SyncedData.d c' = SyncedData.d c /\
      SyncedData.lastRefreshTime c' = SyncedData.lastRefreshTime c /\
      (forall i, (i < n - 1)%nat ->
                 snd (f (i + SyncedData.calls c)) <> None) /\
      match r with
      | inl v =>
          f (n - 1 + SyncedData.calls c) = (v, None) /\
          SyncedData.lastRefreshOk c' = SyncedData.lastRefreshOk c
      | inr e =>
          n = k /\
          SyncedData.lastRefreshOk c' = false /\
          exists x cause,
            f (n - 1 + SyncedData.calls c) = (x, Some cause) /\
            e = SyncedData.ErrRefreshFailed (GoInt.add (SyncedData.retryMax c) 1) cause
      end.
Proof.
  induction k as [|k IH]; intros a c Hk Hmax; [lia|].
  cbn [SyncedData.attempts].
  destruct (f (SyncedData.calls c)) as [data [e|]] eqn:Hf.
  - cbn [SyncedData.retryMax SyncedData.called SyncedData.retryInterval].
    destruct (Z.eqb_spec a (SyncedData.retryMax c)) as [Ha|Ha].
    + exists 1%nat. assert (k = 0)%nat as -> by lia. cbn.
      repeat split; try lia.
      exists data, e. split; [exact Hf|reflexivity].
    + specialize (IH (a + 1) (SyncedData.called c)).
      destruct (SyncedData.attempts zero f k (a + 1) (SyncedData.called c))
        as [[c' r] ev].
      destruct IH as (n & Hn & Hc & Hs & Hset & Hd & Ht & Hfail & Hr);
        [lia|cbn; lia|].
      cbn [SyncedData.called SyncedData.calls SyncedData.retryInterval
           SyncedData.d SyncedData.lastRefreshTime SyncedData.retryMax
           SyncedData.lastRefreshOk] in *.
      exists (S n). split; [lia|]. split; [lia|]. split.
      { cbn [SyncedData.sleeps flat_map app]. fold (SyncedData.sleeps ev).
        rewrite Hs. destruct n; [lia|]. cbn. rewrite Nat.sub_0_r. reflexivity. }
      split; [exact Hset|]. split; [exact Hd|]. split; [exact Ht|]. split.
      { intros i Hi. destruct i as [|i].
        - cbn. rewrite Hf. discriminate.
        - replace (S i + SyncedData.calls c)%nat
            with (i + S (SyncedData.calls c))%nat by lia.
          apply Hfail. lia. }
      replace (S n - 1 + SyncedData.calls c)%nat
        with (n - 1 + S (SyncedData.calls c))%nat by lia.
      destruct r as [v|err].
      * exact Hr.
      * destruct Hr as (Hnk & Hok & Hex). split; [lia|]. split; [exact Hok|exact Hex].
  - exists 1%nat. cbn. repeat split; try lia. exact Hf.
Qed.

(** X21. [refreshWithRetry] calls the refresh function until it succeeds,
    at most [retryMax + 1] times, sleeping [retryInterval] between two
    calls and never after the last.  If a call succeeds, its value is
    stored with the clock reading and the status "ok".  If all
    [retryMax + 1] calls fail, the error carries that count and the cause
    of the last failure, the status is "not ok", and the stored value and
    the time of the last refresh stay as they were. *)
Theorem refreshWithRetry_spec (now : Time) (c : @SyncedData.state T Time) :
  0 <= SyncedData.retryMax c ->
  let '(c', err, ev) := SyncedData.refreshWithRetry zero f now c in
  exists n : nat,
    1 <= Z.of_nat n <= SyncedData.retryMax c + 1 /\
    SyncedData.calls c' = (n + SyncedData.calls c)%nat /\
    SyncedData.sleeps ev = repeat (SyncedData.retryInterval c) (n - 1) /\
    SyncedData.sameSettings c c' /\
    (forall i, (i < n - 1)%nat -> snd (f (i + SyncedData.calls c)) <> None) /\
    match err with
    | None =>
        exists v,
          f (n - 1 + SyncedData.calls c) = (v, None) /\
          SyncedData.d c' = Some v /\
          SyncedData.GetStatus c' = (now, true)
    | Some e =>
        Z.of_nat n = SyncedData.retryMax c + 1 /\
        SyncedData.d c' = SyncedData.d c /\
        SyncedData.GetStatus c' = (SyncedData.lastRefreshTime c, false) /\
        exists x cause,
          f (n - 1 + SyncedData.calls c) = (x, Some cause) /\
          e = SyncedData.ErrRefreshFailed (GoInt.add (SyncedData.retryMax c) 1) cause
    end.
Proof.
  intros Hmax. unfold SyncedData.refreshWithRetry.
  pose proof (attempts_spec (Z.to_nat (SyncedData.retryMax c + 1)) 0 c) as H.
  destruct (SyncedData.attempts zero f
              (Z.to_nat (SyncedData.retryMax c + 1)) 0 c) as [[c' r] ev].
  destruct H as (n & Hn & Hc & Hs & Hset & Hd & Ht & Hfail & Hr); [lia|lia|].
  destruct r as [v|e].
  - destruct Hr as [Hf Hok]. exists n.
    split; [lia|]. split; [exact Hc|]. split.
    { unfold SyncedData.sleeps in *. rewrite flat_map_app, Hs. cbn.
      apply app_nil_r. }
    split; [exact Hset|]. split; [exact Hfail|].
    exists v. repeat split. exact Hf.
  - destruct Hr as (Hnk & Hok & Hex). exists n.
    split; [lia|]. split; [exact Hc|]. split; [exact Hs|].
    split; [exact Hset|]. split; [exact Hfail|].
    split; [lia|]. split; [exact Hd|]. split; [|exact Hex].
    unfold SyncedData.GetStatus. rewrite Ht, Hok. reflexivity.
Qed.

Lemma New_fold_invariant (opts : list (@SyncedData.Option T)) :
  forall sd : @SyncedData.state T Time,
    0 <= SyncedData.retryMax sd ->
    let sd' := fold_left SyncedData.applyOption opts sd in
    0 <= SyncedData.retryMax sd' /\
    SyncedData.t sd' = SyncedData.t sd /\
    SyncedData.initDone sd' = SyncedData.initDone sd /\
    SyncedData.calls sd' = SyncedData.calls sd /\
    (SyncedData.d sd' = SyncedData.d sd /\
     SyncedData.defaultVal sd' = SyncedData.defaultVal sd \/
     SyncedData.d sd' = Some (SyncedData.defaultVal sd')) /\
    ((forall n i, In (SyncedData.WithRetryPolicy n i) opts -> n <= 0) ->
     SyncedData.retryMax sd' = SyncedData.retryMax sd /\
     SyncedData.retryInterval sd' = SyncedData.retryInterval sd).
Proof.
  induction opts as [|o opts IH]; intros sd Hmax; cbv zeta.
  - cbn. repeat split; auto.
  - cbn [fold_left].
    assert (Ho : 0 <= SyncedData.retryMax (SyncedData.applyOption sd o) /\
                 SyncedData.t (SyncedData.applyOption sd o) = SyncedData.t sd /\
                 SyncedData.initDone (SyncedData.applyOption sd o)
                 = SyncedData.initDone sd /\
                 SyncedData.calls (SyncedData.applyOption sd o)
                 = SyncedData.calls sd /\
                 (SyncedData.d (SyncedData.applyOption sd o) = SyncedData.d sd /\
                  SyncedData.defaultVal (SyncedData.applyOption sd o)
                  = SyncedData.defaultVal sd \/
                  SyncedData.d (SyncedData.applyOption sd o)
                  = Some (SyncedData.defaultVal (SyncedData.applyOption sd o))) /\
                 ((forall n i, o = SyncedData.WithRetryPolicy n i -> n <= 0) ->
                  SyncedData.retryMax (SyncedData.applyOption sd o)
                  = SyncedData.retryMax sd /\
                  SyncedData.retryInterval (SyncedData.applyOption sd o)
                  = SyncedData.retryInterval sd)).
    { destruct o as [val|b|n i|b]; cbn;
        try destruct (Z.ltb_spec 0 n); cbn;
        repeat split; intros; auto; try lia;
        match goal with
        | H : forall n i, _ = _ -> _ |- _ => specialize (H _ _ eq_refl); lia
        end. }
    destruct Ho as (O1 & O2 & O3 & O4 & O5 & O6).
    destruct (IH (SyncedData.applyOption sd o) O1) as (I1 & I2 & I3 & I4 & I5 & I6).
    split; [exact I1|]. split; [congruence|]. split; [congruence|].
    split; [congruence|]. split.
    + destruct I5 as [[Id Iv]|I5]; [|right; exact I5].
      destruct O5 as [[Od Ov]|O5]; [left; split; congruence|].
      right. rewrite Id, Iv. exact O5.
    + intros Hall.
      destruct I6 as [J1 J2]; [intros n i Hin; apply (Hall n i); right; exact Hin|].
      destruct O6 as [K1 K2]; [intros n i ->; apply (Hall n i); left; reflexivity|].
      split; congruence.
Qed.

(** X22. [NewSyncedData] checks the interval first and the function
    second: a non-positive interval is refused whatever else is passed, a
    nil function only with a positive interval.  Otherwise the instance is
    not initialised, has status "not ok", a retry count that is never
    negative, and either no stored value (and the zero default) or its
    default value stored; a retry policy whose count is zero or negative
    is ignored as a whole, interval included, leaving no retry and the
    default interval of 1 s. *)
Theorem NewSyncedData_spec
    (interval : time.Duration) (hasF : bool)
    (opts : list (@SyncedData.Option T)) :
  (interval <= 0 ->
   @SyncedData.New T E Time zero zeroTime interval hasF opts
   = (None, Some (SyncedData.ErrIntervalNotPositive interval))) /\
  (0 < interval -> hasF = false ->
   @SyncedData.New T E Time zero zeroTime interval hasF opts
   = (None, Some SyncedData.ErrNilRefresh)) /\
  (0 < interval -> hasF = true ->
   exists c,
     @SyncedData.New T E Time zero zeroTime interval hasF opts = (Some c, None) /\
     SyncedData.t c = interval /\
     SyncedData.initDone c = false /\
     SyncedData.GetStatus c = (zeroTime, false) /\
     SyncedData.calls c = 0%nat /\
     0 <= SyncedData.retryMax c /\
     (SyncedData.d c = None /\ SyncedData.defaultVal c = zero \/
      SyncedData.d c = Some (SyncedData.defaultVal c)) /\
     ((forall n i, In (SyncedData.WithRetryPolicy n i) opts -> n <= 0) ->
      SyncedData.retryMax c = 0 /\
      SyncedData.retryInterval c = 1000000000)).
Proof.
  unfold SyncedData.New. split; [|split].
  - intros H. apply Z.leb_le in H. rewrite H. reflexivity.
  - intros H ->. apply Z.leb_gt in H. rewrite H. reflexivity.
  - intros H ->. apply Z.leb_gt in H. rewrite H. cbn [negb]. cbv zeta.
    match goal with
    | |- context [fold_left SyncedData.applyOption opts ?sd0] =>
        set (s0 := sd0);
        destruct (New_fold_invariant opts s0) as (I1 & I2 & I3 & I4 & I5 & I6);
        [cbn; lia|];
        set (sd' := fold_left SyncedData.applyOption opts s0) in *
    end.
    clearbody sd'. subst s0.
    cbn [SyncedData.t SyncedData.initDone SyncedData.calls SyncedData.d
         SyncedData.defaultVal SyncedData.retryMax SyncedData.retryInterval]
      in I2, I3, I4, I5, I6.
    eexists. split; [reflexivity|].
    cbn [SyncedData.t SyncedData.initDone SyncedData.calls SyncedData.d
         SyncedData.defaultVal SyncedData.retryMax SyncedData.retryInterval
         SyncedData.GetStatus SyncedData.lastRefreshTime
         SyncedData.lastRefreshOk].
    split; [exact I2|]. split; [exact I3|]. split; [reflexivity|].
    split; [exact I4|]. split; [exact I1|]. split; [exact I5|exact I6].
Qed.

(** X23. The protocol around [Init].  Before [Init], [Get] answers the
    default value with an error, also when a default was stored, and
    [Set] is refused and changes nothing.  [Init] succeeds once and
    launches one refresh loop, without calling the refresh function when
    the immediate refresh is switched off; a second [Init] is refused,
    refreshes nothing and launches nothing.  After [Init], a [Set] is
    read back by [Get] and shows in the status; [Get] fails only while
    nothing has ever been stored. *)
Theorem SyncedData_protocol
    (now : Time) (c : @SyncedData.state T Time) (v : T) :
  (SyncedData.initDone c = false ->
   SyncedData.Get c
   = ((SyncedData.defaultVal c, Some (@SyncedData.ErrNotInitialized E)),
      @nil (@SyncedData.event E Time)) /\
   SyncedData.Set_ now c v = (c, Some (@SyncedData.ErrSetBeforeInit E)) /\
   let '(c1, err, ev) := SyncedData.Init zero f now c in
   err = None /\ SyncedData.initDone c1 = true /\
   SyncedData.loopsLaunched ev = 1%nat /\
   (SyncedData.immediateRefresh c = false ->
    SyncedData.calls c1 = SyncedData.calls c /\
    SyncedData.d c1 = SyncedData.d c)) /\
  (SyncedData.initDone c = true ->
   SyncedData.Init zero f now c = (c, Some SyncedData.ErrInitTwice, []) /\
   @SyncedData.Get T E Time (fst (@SyncedData.Set_ T E Time now c v))
   = ((v, None), []) /\
   SyncedData.GetStatus (fst (@SyncedData.Set_ T E Time now c v))
   = (now, true) /\
   (forall x, SyncedData.d c = Some x ->
              @SyncedData.Get T E Time c = ((x, None), [])) /\
   (SyncedData.d c = None ->
    @SyncedData.Get T E Time c
    = ((SyncedData.defaultVal c, Some SyncedData.ErrTypeMismatch),
       [SyncedData.LogTypeMismatch]))).
Proof.
  split.
  - intros Hinit. unfold SyncedData.Get, SyncedData.Set_, SyncedData.Init.
    rewrite Hinit. cbn [negb].
    split; [reflexivity|]. split; [reflexivity|].
    cbn [SyncedData.immediateRefresh SyncedData.initialised].
    destruct (SyncedData.immediateRefresh c) eqn:Him.
    + unfold SyncedData.refreshWithRetry.
      destruct (SyncedData.attempts zero f _ 0 (SyncedData.initialised c))
        as [[c' r] ev] eqn:Ha.
      assert (Hinit' : SyncedData.initDone c' = true).
      { destruct (Z_le_gt_dec 0 (SyncedData.retryMax c)) as [Hm|Hm].
        - pose proof (attempts_spec
                        (Z.to_nat (SyncedData.retryMax c + 1)) 0
                        (SyncedData.initialised c)) as H.
          cbn [SyncedData.retryMax SyncedData.initialised] in H, Ha.
          rewrite Ha in H.
          destruct H as (n & _ & _ & _ & Hset & _); [lia|lia|].
          destruct Hset as (_ & _ & _ & _ & _ & Hi). exact Hi.
        - cbn [SyncedData.retryMax SyncedData.initialised] in Ha.
          replace (Z.to_nat (SyncedData.retryMax c + 1)) with 0%nat in Ha by lia.
          cbn in Ha. inversion Ha; subst. reflexivity. }
      assert (Hloops : forall tail,
                 SyncedData.loopsLaunched tail = 1%nat ->
                 (forall e, In e ev -> e <> SyncedData.GoRefreshLoop) ->
                 SyncedData.loopsLaunched (ev ++ tail) = 1%nat).
      { intros tail Ht Hno. unfold SyncedData.loopsLaunched in *.
        rewrite filter_app, length_app, Ht.
        replace (filter _ ev) with (@nil (@SyncedData.event E Time));
          [reflexivity|].
        symmetry. clear Ha. induction ev as [|e0 ev IH]; [reflexivity|].
        cbn. destruct e0; try (apply IH; intros e He; apply Hno; right; exact He).
        exfalso. apply (Hno SyncedData.GoRefreshLoop); [left|]; reflexivity. }
      assert (Hno : forall e, In e ev -> e <> SyncedData.GoRefreshLoop).
      { clear Hloops Hinit'. revert Ha.
        generalize (Z.to_nat (SyncedData.retryMax (SyncedData.initialised c) + 1)).
        generalize 0 at 1. generalize (SyncedData.initialised c).
        intros c0 a k. revert c0 a c' r ev.
        induction k as [|k IH]; intros c0 a c' r ev Ha e He.
        - cbn in Ha. inversion Ha; subst. contradiction.
        - cbn [SyncedData.attempts] in Ha.
          destruct (f (SyncedData.calls c0)) as [data [e0|]].
          + destruct (a =? SyncedData.retryMax (SyncedData.called c0)).
            * inversion Ha; subst. contradiction.
            * destruct (SyncedData.attempts zero f k (a + 1)
                          (SyncedData.called c0)) as [[c2 r2] ev2] eqn:Ha2.
              inversion Ha; subst.
              destruct He as [<-|[<-|He]]; try discriminate.
              eapply IH; eassumption.
          + inversion Ha; subst. contradiction. }
      destruct r as [data|e0]; cbn [fst snd].
      * split; [reflexivity|]. split; [exact Hinit'|].
        split; [|discriminate].
        rewrite <- app_assoc. apply Hloops; [reflexivity|exact Hno].
      * split; [reflexivity|]. split; [exact Hinit'|].
        split; [|discriminate].
        apply Hloops; [reflexivity|exact Hno].
    + split; [reflexivity|]. split; [reflexivity|].
      split; [reflexivity|]. intros _. split; reflexivity.
  - intros Hinit. unfold SyncedData.Get, SyncedData.Set_, SyncedData.Init.
    rewrite Hinit. cbn [negb fst SyncedData.initDone SyncedData.stored
                        SyncedData.d].
    rewrite Hinit. cbn [negb].
    split; [reflexivity|]. split; [reflexivity|]. split; [reflexivity|].
    split; [intros x ->; reflexivity|intros ->; reflexivity].
Qed.

(** X24. What [Get] serves after [Init] with the immediate refresh on.
    If the refresh function succeeds within its [retryMax + 1] calls, the
    value of its first success is served, without error.  If all those
    calls fail, [Init] still succeeds, and [Get] serves what was stored
    before, that is the configured default, without error; with no
    default configured it serves the zero default together with the
    error "data type mismatch", and the status says "not ok". *)
Theorem Init_then_Get (now : Time) (c : @SyncedData.state T Time) :
  SyncedData.initDone c = false ->
  0 <= SyncedData.retryMax c ->
  SyncedData.immediateRefresh c = true ->
  let c1 := fst (fst (SyncedData.Init zero f now c)) in
  snd (fst (SyncedData.Init zero f now c)) = None /\
  ((forall i, (i <= Z.to_nat (SyncedData.retryMax c))%nat ->
              snd (f (i + SyncedData.calls c)) <> None) ->
   fst (@SyncedData.Get T E Time c1) =
   match SyncedData.d c with
   | Some x => (x, None)
   | None => (SyncedData.defaultVal c, Some SyncedData.ErrTypeMismatch)
   end /\
   SyncedData.GetStatus c1 = (SyncedData.lastRefreshTime c, false)) /\
  (forall j v,
      (j <= Z.to_nat (SyncedData.retryMax c))%nat ->
      (forall i, (i < j)%nat -> snd (f (i + SyncedData.calls c)) <> None) ->
      f (j + SyncedData.calls c) = (v, None) ->
      @SyncedData.Get T E Time c1 = ((v, None), []) /\
      SyncedData.GetStatus c1 = (now, true) /\
      SyncedData.calls c1 = (S j + SyncedData.calls c)%nat).
Proof.
  intros Hinit Hmax Him. cbv zeta.
  unfold SyncedData.Init. rewrite Hinit.
  cbn [SyncedData.immediateRefresh SyncedData.initialised]. rewrite Him.
  unfold SyncedData.refreshWithRetry.
  cbn [SyncedData.retryMax SyncedData.initialised].
  pose proof (attempts_spec (Z.to_nat (SyncedData.retryMax c + 1)) 0
                (SyncedData.initialised c)) as H.
  cbn [SyncedData.retryMax SyncedData.initialised SyncedData.calls
       SyncedData.d SyncedData.lastRefreshTime SyncedData.lastRefreshOk
       SyncedData.retryInterval] in H.
  destruct (SyncedData.attempts zero f
              (Z.to_nat (SyncedData.retryMax c + 1)) 0
              (SyncedData.initialised c)) as [[c' r] ev].
  destruct H as (n & Hn & Hc & Hs & Hset & Hd & Ht & Hfail & Hr); [lia|lia|].
  destruct Hset as (_ & Hdef & _ & _ & _ & Hi).
  cbn [SyncedData.initDone SyncedData.initialised SyncedData.defaultVal]
    in Hi, Hdef.
  destruct r as [v0|e0]; cbn [fst snd].
  - destruct Hr as [Hf0 _]. split; [reflexivity|]. split.
    + intros Hall. exfalso.
      apply (Hall (n - 1)%nat); [lia|]. rewrite Hf0. reflexivity.
    + intros j v Hj Hbefore Hfj.
      assert (n - 1 = j)%nat as Hnj.
      { destruct (Nat.lt_trichotomy (n - 1) j) as [Hlt|[Heq|Hgt]].
        - exfalso. apply (Hbefore (n - 1)%nat Hlt). rewrite Hf0. reflexivity.
        - exact Heq.
        - exfalso. apply (Hfail j Hgt). rewrite Hfj. reflexivity. }
      rewrite Hnj in Hf0. rewrite Hf0 in Hfj. inversion Hfj; subst v0.
      unfold SyncedData.Get. cbn [SyncedData.initDone SyncedData.stored
        SyncedData.d SyncedData.GetStatus SyncedData.lastRefreshTime
        SyncedData.lastRefreshOk SyncedData.calls].
      rewrite Hi. cbn [negb]. repeat split. lia.
  - destruct Hr as (Hnk & Hok & x & cause & Hfx & _).
    split; [reflexivity|]. split.
    + intros _. unfold SyncedData.Get, SyncedData.GetStatus.
      rewrite Hi, Hd, Hdef, Ht, Hok. cbn [negb].
      destruct (SyncedData.d c); split; reflexivity.
    + intros j v Hj Hbefore Hfj. exfalso.
      destruct (Nat.lt_trichotomy (n - 1) j) as [Hlt|[Heq|Hgt]].
      * lia.
      * rewrite Heq in Hfx. rewrite Hfx in Hfj. discriminate.
      * apply (Hfail j Hgt). rewrite Hfj. reflexivity.
Qed.

End SyncedDataFacts.

Example syncedSample_is_New :
  @SyncedData.New Z string Z 0 0 (60 * time.Second) true
    [SyncedData.WithRetryPolicy 3 (50 * time.Millisecond);
     SyncedData.WithDefaultValue 7;
     SyncedData.WithRetryPolicy 0 5]
  = (Some syncedSample, None).
Proof. reflexivity. Qed.

Lemma refreshWithRetry_spec_witness :
  let run := SyncedData.refreshWithRetry 0 flakyRefresh 1000 syncedSample in
  exists n : nat,
    SyncedData.calls (fst (fst run)) = (n + 0)%nat /\
    SyncedData.sleeps (snd run) = repeat 50000000 (n - 1).
Proof.
  assert (Hm : 0 <= SyncedData.retryMax syncedSample) by (cbn; lia).
  pose proof (refreshWithRetry_spec 0 flakyRefresh 1000 syncedSample Hm) as H.
  cbv zeta.
  destruct (SyncedData.refreshWithRetry 0 flakyRefresh 1000 syncedSample)
    as [[c' err] ev].
  destruct H as (n & _ & Hc & Hs & _).
  exists n. split; [exact Hc|exact Hs].
Defined.

Example refreshWithRetry_flaky :
  let run := SyncedData.refreshWithRetry 0 flakyRefresh 1000 syncedSample in
  snd (fst run) = None /\
  SyncedData.d (fst (fst run)) = Some 42 /\
  SyncedData.calls (fst (fst run)) = 3%nat /\
  SyncedData.sleeps (snd run) = [50000000; 50000000].
Proof. repeat split. Qed.

Lemma Init_then_Get_witness :
  fst (@SyncedData.Get Z string Z
         (fst (fst (SyncedData.Init 0 brokenRefresh 1000 syncedSample))))
  = (7, None).
Proof.
  refine (proj1 (proj1 (proj2 (Init_then_Get 0 brokenRefresh 1000 syncedSample
                                 eq_refl _ eq_refl)) _)).
  - cbn; lia.
  - intros i _. discriminate.
Defined.

Lemma NewSyncedData_spec_witness :
  @SyncedData.New Z string Z 0 0 0 false [] =
  (None, Some (SyncedData.ErrIntervalNotPositive 0)).
Proof.
  apply (proj1 (@NewSyncedData_spec Z string Z 0 0 0 false [])). lia.
Defined.

Lemma SyncedData_protocol_witness :
  @SyncedData.Get Z string Z syncedSample
  = ((7, Some SyncedData.ErrNotInitialized), []).
Proof.
  apply (proj1 (@SyncedData_protocol Z string Z 0 brokenRefresh 1000
                  syncedSample 0)).
  reflexivity.
Defined.

(** ** Package common: [Pacer] *)

Section PacerFacts.

Context {Time : Type}.
Variable Sub : Time -> Time -> time.Duration.

Lemma last_cons_any {A : Type} (l : list A) :
  forall o d, List.last (o :: l) d = List.last l o.
Proof.
  induction l as [|a l IH]; intros o d; [reflexivity|].
  change (List.last (o :: a :: l) d) with (List.last (a :: l) d).
  rewrite (IH a d), (IH a o). reflexivity.
Qed.

Lemma Run_all_fired (times : list Time) :
  forall (p : @Pacer.t Time) l p' fired,
    Pacer.last p = Some l ->
    Pacer.Run_all Sub p times = Some (p', fired) ->
    Sorted (fun a b => Pacer.pace p < Sub b a) fired /\
    HdRel (fun a b => Pacer.pace p < Sub b a) l fired /\
    Pacer.pace p' = Pacer.pace p /\
    Pacer.last p' = Some (List.last fired l).
Proof.
  induction times as [|now rest IH]; intros p l p' fired Hl Hrun.
  - cbn in Hrun. inversion Hrun; subst. repeat split; try constructor. exact Hl.
  - cbn [Pacer.Run_all] in Hrun. unfold Pacer.Run in Hrun. rewrite Hl in Hrun.
    destruct (Z.ltb_spec (Pacer.pace p) (Sub now l)) as [Hlt|Hge].
    + destruct (Pacer.Run_all Sub
                  {| Pacer.last := Some now; Pacer.pace := Pacer.pace p |} rest)
        as [[p2 fired2]|] eqn:Hrest; [|discriminate].
      inversion Hrun; subst.
      destruct (IH {| Pacer.last := Some now; Pacer.pace := Pacer.pace p |}
                  now p' fired2 eq_refl Hrest) as (I1 & I2 & I3 & I4).
      cbn [Pacer.pace] in *. split; [constructor; assumption|].
      split; [constructor; exact Hlt|]. split; [exact I3|].
      rewrite I4, last_cons_any. reflexivity.
    + destruct (Pacer.Run_all Sub p rest) as [[p2 fired2]|] eqn:Hrest;
        [|discriminate].
      inversion Hrun; subst.
      exact (IH _ l _ _ Hl Hrest).
Qed.

(** X25. A [Pacer] keeps its pace: whatever the clock readings of a
    sequence of [Run] (or [Go]) calls, between two consecutive runs of
    [f] more than [pace] has elapsed, as [Sub] measures it, and so has
    between the time the pacer started from and the first run.  The
    pace itself never changes. *)
Theorem Pacer_keeps_pace
    (p : @Pacer.t Time) (l : Time) (times : list Time)
    (p' : @Pacer.t Time) (fired : list Time) :
  Pacer.last p = Some l ->
  Pacer.Run_all Sub p times = Some (p', fired) ->
  Sorted (fun a b => Pacer.pace p < Sub b a) (l :: fired) /\
  Pacer.pace p' = Pacer.pace p /\
  incl fired times.
Proof.
  intros Hl Hrun.
  destruct (Run_all_fired times p l p' fired Hl Hrun) as (H1 & H2 & H3 & _).
  split; [constructor; assumption|]. split; [exact H3|].
  clear H1 H2 H3 Hl. revert p p' fired Hrun.
  induction times as [|now rest IH]; intros p p' fired Hrun.
  - cbn in Hrun. inversion Hrun; subst. apply incl_refl.
  - cbn [Pacer.Run_all] in Hrun.
    destruct (Pacer.Run Sub p now) as [[p1 ran]|]; [|discriminate].
    destruct (Pacer.Run_all Sub p1 rest) as [[p2 fired2]|] eqn:Hrest;
      [|discriminate].
    inversion Hrun; subst. specialize (IH _ _ _ Hrest).
    destruct ran.
    + apply incl_cons; [left; reflexivity|apply incl_tl; exact IH].
    + apply incl_tl. exact IH.
Qed.

(** X26. A pacer made by [NewPacerWithRand] cannot be used: the
    constructor panics for a non-positive [extraSec], and otherwise
    leaves [last] nil, so that the first [Run] or [Go] panics before [f]
    is run, whatever the pace, the number drawn and the clock. *)
Theorem NewPacerWithRand_unusable
    (pace : time.Duration) (extraSec r : Z) (now : Time) :
  (extraSec <= 0 -> @NewPacerWithRand Time pace extraSec r = None) /\
  (forall p, NewPacerWithRand pace extraSec r = Some p ->
             Pacer.Run Sub p now = None /\ Pacer.Go Sub p now = None /\
             forall times, times <> [] -> Pacer.Run_all Sub p times = None).
Proof.
  unfold NewPacerWithRand. split.
  - intros H. apply Z.leb_le in H. rewrite H. reflexivity.
  - intros p Hp. destruct (extraSec <=? 0); [discriminate|].
    inversion Hp; subst. split; [reflexivity|]. split; [reflexivity|].
    intros [|t0 rest] Hne; [contradiction|reflexivity].
Qed.

End PacerFacts.

Lemma Pacer_keeps_pace_witness :
  Sorted (fun a b => 10 < b - a) [0; 11; 30].
Proof.
  refine (proj1 (Pacer_keeps_pace Z.sub
                   {| Pacer.last := Some 0; Pacer.pace := 10 |} 0
                   [5; 11; 12; 21; 30; 31]
                   {| Pacer.last := Some 30; Pacer.pace := 10 |} [11; 30]
                   eq_refl eq_refl)).
Defined.

Lemma NewPacerWithRand_unusable_witness :
  Pacer.Run Z.sub {| Pacer.last := None; Pacer.pace := 2000000005 |} 1000 = None.
Proof.
  refine (proj1 (proj2 (NewPacerWithRand_unusable Z.sub 5 3 2 1000) _ _)).
  reflexivity.
Defined.

(** ** The effective thresholds of a constructed reader *)

(** X27. A reader that [CreateReader] returns works with what the call
    left in the caller's [Config]: the same brokers, topic and handler,
    and the thresholds and backoff after defaulting.  Its minimum fetch
    size is positive and its backoff at least 100 ms; and as long as the
    supplied minimum is at most [GoInt.max_int - 64], its maximum fetch
    size is at least the minimum. *)
Theorem CreateReader_effective_settings (env : Env) (cfg : Config) (r : Reader) :
  returned env cfg = (Some r, None) ->
  brokers (shared r) = Brokers cfg /\
  topic (shared r) = Topic cfg /\
  Some (handleEvent (shared r)) = Handler cfg /\
  minBytes (shared r) = MinBytes (cfgAfter env cfg) /\
  maxBytes (shared r) = MaxBytes (cfgAfter env cfg) /\
  readBackoffMin (shared r) = ReadBackoffMin (cfgAfter env cfg) /\
  0 < minBytes (shared r) /\
  READBACKOFFMIN <= readBackoffMin (shared r) /\
  (MinBytes cfg <= GoInt.max_int - 64 ->
   minBytes (shared r) <= maxBytes (shared r)).
Proof.
  intros H.
  destruct (CreateReader_success env cfg r H)
    as (h & parts & Hb & Ht & Hh & Hs & Hc).
  destruct (applyDefaults_frame cfg) as (_ & Fb & Ft & _).
  rewrite Hs, Hc. cbn [brokers topic handleEvent minBytes maxBytes
                        readBackoffMin mkShared].
  split; [exact Fb|]. split; [exact Ft|]. split; [symmetry; exact Hh|].
  split; [reflexivity|]. split; [reflexivity|]. split; [reflexivity|].
  split; [|split].
  - rewrite applyDefaults_MinBytes. unfold MINBYTES.
    destruct (Z.leb_spec (MinBytes cfg) 0); lia.
  - rewrite applyDefaults_ReadBackoffMin.
    destruct (Z.leb_spec (ReadBackoffMin cfg) READBACKOFFMIN); lia.
  - apply applyDefaults_max_ge_min.
Qed.

Lemma CreateReader_effective_settings_witness :
  exists r,
    returned (envHealthy []) (cfgSample 9000000 100 5) = (Some r, None) /\
    minBytes (shared r) <= maxBytes (shared r).
Proof.
  eexists. split; [vm_compute; reflexivity|].
  refine (proj2 (proj2 (proj2 (proj2 (proj2 (proj2 (proj2 (proj2
    (CreateReader_effective_settings (envHealthy [])
       (cfgSample 9000000 100 5) _ _)))))))) _).
  - vm_compute; reflexivity.
  - vm_compute; discriminate.
Defined.

(** ** The constructor with the panics of the client *)











